(** * project_to_txt: a shallow embedding of [src/project_to_txt.py]

    The script walks a directory tree, keeps the files whose names match an
    include policy, loads each one (size check, binary sniff, tolerant
    decoding) and appends one block per file to a single text document.

    Conventions of the embedding.
    - Python [str] values that are names, command-line arguments, paths and
      notes are Rocq [string]s; a character is the code point U+0000..U+00FF
      with the same number, and [lower], [strip] are Python's on that range.
    - Decoded file text and the output document are lists of Unicode code
      points ([text]); [widen] injects a [string] into [text].
    - [bytes] values are [list Byte.byte].
    - Python [set]s of strings are [gset string].
    - File-system calls run in a small exception monad [IO] over a log of
      the calls made so far; what a call answers is given by an oracle that
      may depend on that log (a file can change or vanish between calls).
      A raised exception is an instance of [Exception], which is what the
      program's handlers catch.
    - The tree that [os.walk] visits is made of plain files and readable
      directories; symbolic links are outside the model.
    - The output side of [main] (creating the output directory, opening
      the document, each [write], closing, each [print]) may raise: a
      [sink] says which of these calls fail.  [export_loop] is the loop of
      [main] when none fails.  Parsing the command line and resolving
      [root] and [output] to absolute paths happen before the part of
      [main] that is modelled. *)

From Stdlib Require Import ZArith NArith Ascii String List Lia.
From Stdlib Require Strings.Byte.
From stdpp Require Import base decidable list gmap strings pretty sorting.

Local Open Scope string_scope.

(** ** Python string primitives on [string] *)

Module PyStr.

(** [c.lower()] for a code point below U+0100: A-Z, and the Latin-1 capitals
    U+00C0..U+00DE except the multiplication sign U+00D7, move up by 32. *)
Definition lower_char (c : ascii) : ascii :=
  let n := N_of_ascii c in
  if ((65 <=? n) && (n <=? 90))%N then ascii_of_N (n + 32)
  else if ((192 <=? n) && (n <=? 222) && negb (n =? 215))%N then ascii_of_N (n + 32)
  else c.

(** [s.lower()] *)
Fixpoint lower (s : string) : string :=
  match s with
  | EmptyString => EmptyString
  | String c s' => String (lower_char c) (lower s')
  end.

(** [c.isspace()] below U+0100: TAB..CR, FS..US, SPACE, NEL, NBSP. *)
Definition is_space (c : ascii) : bool :=
  let n := N_of_ascii c in
  (((9 <=? n) && (n <=? 13)) || ((28 <=? n) && (n <=? 32))
   || (n =? 133) || (n =? 160))%N.

(** [s.lstrip(chars)] with the set of characters given as a predicate. *)
Fixpoint lstrip_by (p : ascii -> bool) (s : string) : string :=
  match s with
  | EmptyString => EmptyString
  | String c s' => if p c then lstrip_by p s' else s
  end.

(** [s.rstrip(chars)] *)
Fixpoint rstrip_by (p : ascii -> bool) (s : string) : string :=
  match s with
  | EmptyString => EmptyString
  | String c s' =>
      match rstrip_by p s' with
      | EmptyString => if p c then EmptyString else String c EmptyString
      | r => String c r
      end
  end.

(** [s.strip()] *)
Definition strip (s : string) : string := rstrip_by is_space (lstrip_by is_space s).

(** [s.lstrip(".")] *)
Definition lstrip_dot (s : string) : string := lstrip_by (Ascii.eqb ".") s.

(** [s.split(sep)] for a one-character separator: one more piece than there
    are separators, empty pieces kept. *)
Fixpoint split (sep : ascii) (s : string) : list string :=
  match s with
  | EmptyString => [EmptyString]
  | String c s' =>
      if Ascii.eqb c sep then EmptyString :: split sep s'
      else match split sep s' with
           | [] => [String c EmptyString]
           | piece :: rest => String c piece :: rest
           end
  end.

(** [sep in s] for a one-character [sep]. *)
Fixpoint contains (sep : ascii) (s : string) : bool :=
  match s with
  | EmptyString => false
  | String c s' => Ascii.eqb c sep || contains sep s'
  end.

(** The cut made by [s.rsplit(sep, 1)]: [Some (before, after)] around the
    last separator, [None] when there is none. *)
Fixpoint rcut (sep : ascii) (s : string) : option (string * string) :=
  match s with
  | EmptyString => None
  | String c s' =>
      match rcut sep s' with
      | Some (before, after) => Some (String c before, after)
      | None => if Ascii.eqb c sep then Some (EmptyString, s') else None
      end
  end.

(** [s.rsplit(sep, 1)] *)
Definition rsplit1 (sep : ascii) (s : string) : list string :=
  match rcut sep s with
  | Some (before, after) => [before; after]
  | None => [s]
  end.

(** [l[-1]] on a list known to be non-empty ([rsplit1] never returns []). *)
Definition last_item (l : list string) : string := List.last l EmptyString.

(** [s * n] *)
Fixpoint repeat_str (s : string) (n : nat) : string :=
  match n with
  | O => EmptyString
  | S n' => s ++ repeat_str s n'
  end.

End PyStr.

(** ** Module-level constants *)

Definition DEFAULT_EXCLUDE_DIRS : gset string :=
  {[ ".git"; "target"; "node_modules"; "build"; "dist"; ".idea"; ".vscode";
     ".venv"; "__pycache__"; ".mvn"; ".gradle"; ".pytest_cache";
     ".scannerwork"; ".sonar"; "coverage"; "out"; "jacoco-report" ]}.

Definition DEFAULT_INCLUDE_EXT : gset string :=
  {[ "py"; "js"; "ts"; "tsx"; "jsx"; "html"; "css";
     "md"; "markdown"; "txt"; "yml"; "yaml"; "json"; "xml"; "xsd";
     "properties"; "ini"; "cfg"; "conf"; "sql"; "sh"; "bash"; "ksh"; "bat";
     "groovy"; "kt"; "gradle"; "rb"; "go"; "c"; "cc"; "cpp"; "h"; "hpp";
     "env"; "dockerfile"; "jenkinsfile" ]}.

Definition SPECIAL_FILENAMES : gset string := {[ "dockerfile"; "jenkinsfile" ]}.

(** ** Configuration resolution (the two set computations of [main]) *)

(** [{x.strip().lower().lstrip(".") for x in include.split(",") if x.strip()}] *)
Definition include_tokens (include : string) : gset string :=
  list_to_set
    (map (fun x => PyStr.lstrip_dot (PyStr.lower (PyStr.strip x)))
         (filter (fun x => PyStr.strip x <> "") (PyStr.split "," include))).

(** [include_exts] as [main] leaves it before calling [gather_files]. *)
Definition resolve_include (include : string) : gset string :=
  let include_exts := DEFAULT_INCLUDE_EXT in
  if negb (String.eqb (PyStr.strip include) "") then include_tokens include
  else include_exts.

(** [{x.strip() for x in exclude_dirs.split(",") if x.strip()}] *)
Definition exclude_tokens (exclude_dirs : string) : gset string :=
  list_to_set
    (map PyStr.strip
         (filter (fun x => PyStr.strip x <> "") (PyStr.split "," exclude_dirs))).

(** [exclude_dirs] as [main] leaves it before calling [gather_files]. *)
Definition resolve_exclude (exclude_dirs_arg : string) : gset string :=
  let exclude_dirs := DEFAULT_EXCLUDE_DIRS in
  if negb (String.eqb (PyStr.strip exclude_dirs_arg) "")
  then exclude_dirs ∪ exclude_tokens exclude_dirs_arg
  else exclude_dirs.

(** ** The include policy *)

Definition should_include (filename : string) (include_exts : gset string) : bool :=
  let lower := PyStr.lower filename in
  if bool_decide (lower ∈ SPECIAL_FILENAMES) then true
  else if PyStr.contains "." lower then
    let ext := PyStr.last_item (PyStr.rsplit1 "." lower) in
    bool_decide (ext ∈ include_exts)
  else false.

(** ** Paths: the two-argument case of POSIX [os.path.join] *)

Definition starts_with_slash (s : string) : bool :=
  match s with
  | String c _ => Ascii.eqb c "/"
  | EmptyString => false
  end.

Fixpoint ends_with_slash (s : string) : bool :=
  match s with
  | EmptyString => false
  | String c EmptyString => Ascii.eqb c "/"
  | String _ s' => ends_with_slash s'
  end.

Definition os_path_join (a b : string) : string :=
  if starts_with_slash b then b
  else if String.eqb a "" || ends_with_slash a then a ++ b
  else a ++ "/" ++ b.

(** ** The directory tree and [sorted] *)

(** What [os.walk] sees: a directory is the list of its entries, in the
    order the operating system reports them. The names in one directory
    are distinct. *)
Inductive node : Type :=
| File : node
| Dir : list (string * node) -> node.

Definition is_dir (t : node) : bool :=
  match t with Dir _ => true | File => false end.

(** [sorted(names)]: code-point order, by insertion. *)
Fixpoint insert_sorted (x : string) (l : list string) : list string :=
  match l with
  | [] => [x]
  | y :: l' => if String.leb x y then x :: l else y :: insert_sorted x l'
  end.

Definition sorted (l : list string) : list string :=
  fold_right insert_sorted [] l.

(** The sub-walk registered under [name], if any. *)
Fixpoint lookup_name {A : Type} (name : string) (l : list (string * A)) : option A :=
  match l with
  | [] => None
  | (n, a) :: l' => if String.eqb n name then Some a else lookup_name name l'
  end.

(** ** [gather_files] *)

Section Gather.
Variable include_exts : gset string.
Variable exclude_dirs : gset string.

(** [dirnames[:] = [d for d in sorted(dirnames) if d not in exclude_dirs]] *)
Definition prune (dirnames : list string) : list string :=
  filter (fun d => d ∉ exclude_dirs) (sorted dirnames).

(** The files appended while the walk is at [dirpath]. *)
Definition files_here (dirpath : string) (filenames : list string) : list string :=
  map (os_path_join dirpath)
      (List.filter (fun fname => should_include fname include_exts) (sorted filenames)).

(** One step of the top-down walk at a directory, then the walks of the
    directories left in [dirnames], each under [join(dirpath, d)]. *)
Fixpoint walk (t : node) (dirpath : string) : list string :=
  match t with
  | File => []
  | Dir entries =>
      let dirnames := map fst (List.filter (fun e => is_dir (snd e)) entries) in
      let filenames := map fst (List.filter (fun e => negb (is_dir (snd e))) entries) in
      let below := map (fun e => (fst e, walk (snd e))) entries in
      files_here dirpath filenames
      ++ flat_map (fun d => match lookup_name d below with
                            | Some k => k (os_path_join dirpath d)
                            | None => []
                            end)
                  (prune dirnames)
  end.
End Gather.

(** [gather_files(root, include_exts, exclude_dirs)], with the tree found at
    [root] as an extra argument. [os.walk] yields a directory, lets the
    caller edit [dirnames] in place, and only then descends into what is
    left of it; [walk] does the same. *)
Definition gather_files (tree : node) (root : string)
    (include_exts exclude_dirs : gset string) : list string :=
  walk include_exts exclude_dirs tree root.

(** [os.path.relpath(path, start)] for two absolute, normalised paths (as
    [main] passes them: [root] went through [abspath], and every gathered
    file is [root] joined with entry names), where [abspath] changes
    nothing. *)
Definition path_parts (p : string) : list string :=
  filter (fun x => x <> "") (PyStr.split "/" p).

Fixpoint common_prefix_len (a b : list string) : nat :=
  match a, b with
  | x :: a', y :: b' => if String.eqb x y then S (common_prefix_len a' b') else 0
  | _, _ => 0
  end.

Definition os_path_relpath (path start : string) : string :=
  let start_list := path_parts start in
  let path_list := path_parts path in
  let i := common_prefix_len start_list path_list in
  let rel_list := (repeat ".." (length start_list - i) ++ skipn i path_list)%list in
  match rel_list with
  | [] => "."
  | first :: others => fold_left os_path_join others first
  end.

(** ** File-system calls: an exception monad over the log of calls *)

(** A raised [Exception]; [str(e)] is all the program ever uses of it. *)
Inductive exn : Type := Exception (msg : string).

Definition str_of_exn (e : exn) : string := match e with Exception msg => msg end.

Inductive outcome (A : Type) : Type :=
| Returned (a : A)
| Raised (e : exn).
Arguments Returned {A} a.
Arguments Raised {A} e.

Inductive syscall : Type :=
| Getsize (path : string)                       (* os.path.getsize(path) *)
| OpenRead (path : string) (size : option nat).  (* open(path, "rb"), f.read([size]) *)

(** What the file system answers, given the calls made before: the size
    or an error for [getsize]; for an open-and-read the whole content at
    that moment, or the error of the open or of the read. *)
Record oracle : Type := {
  ask_getsize : list syscall -> string -> outcome Z;
  ask_content : list syscall -> string -> outcome (list Byte.byte)
}.

Definition IO (A : Type) : Type := oracle -> list syscall -> outcome A * list syscall.

Definition ret {A} (a : A) : IO A := fun _ log => (Returned a, log).

Definition bind {A B} (m : IO A) (k : A -> IO B) : IO B :=
  fun fs log =>
    match m fs log with
    | (Returned a, log') => k a fs log'
    | (Raised e, log') => (Raised e, log')
    end.

(** [try: body / except Exception as e: handler(e)] *)
Definition try_except {A} (body : IO A) (handler : exn -> IO A) : IO A :=
  fun fs log =>
    match body fs log with
    | (Returned a, log') => (Returned a, log')
    | (Raised e, log') => handler e fs log'
    end.

Notation "'let!' x ':=' m 'in' k" := (bind m (fun x => k))
  (at level 10, x name, m at level 100, k at level 200).

Definition os_path_getsize (path : string) : IO Z :=
  fun fs log => (ask_getsize fs log path, (log ++ [Getsize path])%list).

(** [with open(path, "rb") as f: f.read(size)]; [size = None] reads all. *)
Definition open_rb_read (path : string) (size : option nat) : IO (list Byte.byte) :=
  fun fs log =>
    (match ask_content fs log path with
     | Returned data =>
         Returned (match size with Some n => firstn n data | None => data end)
     | Raised e => Raised e
     end, (log ++ [OpenRead path size])%list).

(** ** Decoding *)

(** Decoded text: a list of Unicode code points. *)
Abbreviation text := (list N).

Definition widen (s : string) : text := map N_of_ascii (list_ascii_of_string s).

Local Open Scope N_scope.

Definition in_range (lo hi b : N) : bool := (lo <=? b) && (b <=? hi).

(** Strict UTF-8, as [bytes.decode("utf-8")] accepts it: shortest form only,
    no surrogates, nothing above U+10FFFF; [None] is [UnicodeDecodeError]. *)
Fixpoint utf8_decode_N (data : list N) : option text :=
  match data with
  | [] => Some []
  | b0 :: r0 =>
      if b0 <=? 127 then cons b0 <$> utf8_decode_N r0
      else if in_range 194 223 b0 then
        match r0 with
        | b1 :: r1 =>
            if in_range 128 191 b1
            then cons ((b0 - 192) * 64 + (b1 - 128)) <$> utf8_decode_N r1
            else None
        | _ => None
        end
      else if in_range 224 239 b0 then
        match r0 with
        | b1 :: b2 :: r2 =>
            let lo := if b0 =? 224 then 160 else 128 in
            let hi := if b0 =? 237 then 159 else 191 in
            if in_range lo hi b1 && in_range 128 191 b2
            then cons ((b0 - 224) * 4096 + (b1 - 128) * 64 + (b2 - 128))
                   <$> utf8_decode_N r2
            else None
        | _ => None
        end
      else if in_range 240 244 b0 then
        match r0 with
        | b1 :: b2 :: b3 :: r3 =>
            let lo := if b0 =? 240 then 144 else 128 in
            let hi := if b0 =? 244 then 143 else 191 in
            if in_range lo hi b1 && in_range 128 191 b2 && in_range 128 191 b3
            then cons ((b0 - 240) * 262144 + (b1 - 128) * 4096
                       + (b2 - 128) * 64 + (b3 - 128))
                   <$> utf8_decode_N r3
            else None
        | _ => None
        end
      else None
  end.

Definition decode_utf8 (data : list Byte.byte) : option text :=
  utf8_decode_N (map Byte.to_N data).

(** [data.decode("latin-1", errors="replace")]: every byte is a code point. *)
Definition decode_latin1 (data : list Byte.byte) : text := map Byte.to_N data.

Local Close Scope N_scope.

(** ** The content loader *)

(** [b"\x00" in chunk] *)
Definition has_null (chunk : list Byte.byte) : bool :=
  existsb (Byte.eqb Byte.x00) chunk.

Definition looks_binary (path : string) (sample_size : nat) : IO bool :=
  try_except
    (let! chunk := open_rb_read path (Some sample_size) in
     ret (has_null chunk))
    (fun _ => ret true).

Definition note_size (size max_bytes : Z) : string :=
  "IGNORED (size " ++ pretty size ++ " > " ++ pretty max_bytes ++ " bytes)".
Definition note_binary : string := "IGNORED (binary file)".
Definition note_latin1 : string := "NOTE (decoded as latin-1 with replacements)".
Definition note_error (e : exn) : string :=
  "IGNORED (error reading: " ++ str_of_exn e ++ ")".

(** The pair [(text, note)]; [None] is Python's [None]. *)
Definition load_result : Type := option text * option string.

Definition read_text_safely (path : string) (max_bytes : Z) : IO load_result :=
  try_except
    (let! size := os_path_getsize path in
     if (size >? max_bytes)%Z then ret (None, Some (note_size size max_bytes))
     else
       let! binary := looks_binary path 2048 in
       if binary then ret (None, Some note_binary)
       else
         let! data := open_rb_read path None in
         match decode_utf8 data with
         | Some t => ret (Some t, None)
         | None => ret (Some (decode_latin1 data), Some note_latin1)
         end)
    (fun e => ret (None, Some (note_error e))).

(** ** Text primitives on code points *)

Module PyText.

Local Open Scope N_scope.

(** The line boundaries of [str.splitlines]: LF, VT, FF, CR, FS, GS, RS,
    NEL, LINE SEPARATOR, PARAGRAPH SEPARATOR (CR LF counts once). *)
Definition is_linebreak (c : N) : bool :=
  in_range 10 13 c || in_range 28 30 c || (c =? 133) || (c =? 8232) || (c =? 8233).

(** [s.splitlines()], line ends dropped. *)
Fixpoint splitlines (s : text) : list text :=
  match s with
  | [] => []
  | c :: s' =>
      if is_linebreak c then
        match s' with
        | d :: s'' => if (c =? 13) && (d =? 10) then [] :: splitlines s''
                      else [] :: splitlines s'
        | [] => [[]]
        end
      else
        match splitlines s' with
        | [] => [[c]]
        | line :: rest => (c :: line) :: rest
        end
  end.

(** [s.expandtabs(tabsize)]: a TAB becomes the spaces up to the next tab
    stop; LF and CR reset the column. [col] is the running column. *)
Fixpoint expandtabs_from (tabsize col : nat) (s : text) : text :=
  match s with
  | [] => []
  | c :: s' =>
      if c =? 9 then
        if (0 <? tabsize)%nat then
          let incr := (tabsize - col mod tabsize)%nat in
          (repeat 32 incr ++ expandtabs_from tabsize (col + incr) s')%list
        else expandtabs_from tabsize col s'
      else
        c :: expandtabs_from tabsize
               (if (c =? 10) || (c =? 13) then 0%nat else S col) s'
  end.

Definition expandtabs (tabsize : nat) (s : text) : text := expandtabs_from tabsize 0 s.

(** [sep.join(parts)] *)
Fixpoint join (sep : text) (parts : list text) : text :=
  match parts with
  | [] => []
  | [p] => p
  | p :: rest => (p ++ sep ++ join sep rest)%list
  end.

End PyText.

(** ** [textwrap.TextWrapper] as [write_file_block] configures it

    [width=500, replace_whitespace=False, drop_whitespace=False,
    break_long_words=True, break_on_hyphens=False]; every other option
    keeps its default: [expand_tabs=True], [tabsize=8], empty indents,
    [fix_sentence_endings=False], [max_lines=None]. *)

Module TextWrapper.

Local Open Scope N_scope.

(** textwrap's [_whitespace]: TAB, LF, VT, FF, CR, SPACE. *)
Definition is_ws (c : N) : bool := in_range 9 13 c || (c =? 32).

(** [_munge_whitespace]: tabs are expanded ([expand_tabs] is on), nothing
    is replaced ([replace_whitespace] is off). *)
Definition munge_whitespace (s : text) : text := PyText.expandtabs 8 s.

(** [_split] with [break_on_hyphens] off: the pieces of
    [re.split("([\t\n\x0b\x0c\r ]+)", s)] that are not empty, that is the
    maximal runs of whitespace and of non-whitespace, in order. *)
Fixpoint split (s : text) : list text :=
  match s with
  | [] => []
  | c :: s' =>
      match split s' with
      | (d :: chunk) :: rest =>
          if Bool.eqb (is_ws c) (is_ws d) then (c :: d :: chunk) :: rest
          else [c] :: (d :: chunk) :: rest
      | [] :: rest => [c] :: rest
      | [] => [[c]]
      end
  end.

Local Close Scope N_scope.

Section Wrap.
Local Open Scope nat_scope.
Local Open Scope list_scope.
Variable width : nat.

(** The inner [while chunks:] loop: chunks move to the current line
    while they fit. Returns the line, its length and what is left. *)
Fixpoint fill_line (chunks cur_line : list text) (cur_len : nat)
    : list text * nat * list text :=
  match chunks with
  | [] => (cur_line, cur_len, [])
  | chunk :: rest =>
      let l := length chunk in
      if cur_len + l <=? width
      then fill_line rest (cur_line ++ [chunk])%list (cur_len + l)
      else (cur_line, cur_len, chunks)
  end.

(** [_handle_long_word] with [break_long_words] on: the first
    [space_left] characters of the chunk go to the current line. *)
Definition handle_long_word (chunks cur_line : list text) (cur_len : nat)
    : list text * list text :=
  let space_left := if width <? 1 then 1 else width - cur_len in
  match chunks with
  | chunk :: rest =>
      ((cur_line ++ [firstn space_left chunk])%list, skipn space_left chunk :: rest)
  | [] => (cur_line, [])
  end.

(** One round of the outer [while chunks:] loop of [_wrap_chunks]: the
    chunks of the next line, and the chunks left for the lines after. *)
Definition next_line (chunks : list text) : list text * list text :=
  let '(cur_line, cur_len, chunks1) := fill_line chunks [] 0 in
  match chunks1 with
  | chunk :: _ =>
      if width <? length chunk
      then handle_long_word chunks1 cur_line cur_len
      else (cur_line, chunks1)
  | [] => (cur_line, chunks1)
  end.

(** The outer loop itself. [None] only when [fuel] rounds were not
    enough. *)
Fixpoint wrap_chunks_loop (fuel : nat) (chunks lines : list text)
    : option (list text) :=
  match chunks with
  | [] => Some lines
  | _ :: _ =>
      match fuel with
      | O => None
      | S fuel' =>
          let '(cur_line, chunks2) := next_line chunks in
          let lines :=
            match cur_line with
            | [] => lines
            | _ :: _ => lines ++ [concat cur_line]
            end in
          wrap_chunks_loop fuel' chunks2 lines
      end
  end.

(** [_wrap_chunks]: every round uses up at least one character, so as
    many rounds as there are characters always suffice (see
    [wrap_chunks_loop_enough] below). *)
Definition wrap_chunks (chunks : list text) : option (list text) :=
  wrap_chunks_loop (length (concat chunks)) chunks [].

(** [wrapper.wrap(raw)] *)
Definition wrap_opt (raw : text) : option (list text) :=
  wrap_chunks (split (munge_whitespace raw)).

(** The same as a total function; [wrap_opt] is never [None] for a
    positive width (see [wrap_opt_total] below). *)
Definition wrap (raw : text) : list text := default [] (wrap_opt raw).
End Wrap.

End TextWrapper.

(** ** The exporter *)

Definition nl : string := String (ascii_of_nat 10) EmptyString.

(** [out.write(s)] on the output document. *)
Definition write (out : text) (s : text) : text := (out ++ s)%list.

(** How an f-string renders a note. *)
Definition fmt_note (note : option string) : string :=
  match note with Some n => n | None => "None" end.

(** The body loop of [write_file_block]: one [out.write] per source line. *)
Definition write_body (out : text) (t : text) : text :=
  fold_left
    (fun out raw =>
       let wrapped := TextWrapper.wrap 500 raw in
       write out ((match wrapped with
                   | [] => []
                   | _ :: _ => PyText.join (widen nl) wrapped
                   end) ++ widen nl)%list)
    (PyText.splitlines t) out.

Definition write_file_block (out : text) (rel_path : string)
    (txt : option text) (note : option string) : text :=
  let sep := PyStr.repeat_str "-" 80 in
  match txt with
  | None =>
      let out := write out (widen ("===== FILE: " ++ rel_path ++ " (" ++ fmt_note note ++ ") =====" ++ nl)) in
      write out (widen (sep ++ nl ++ nl))
  | Some t =>
      let out := write out (widen ("===== FILE: " ++ rel_path ++ " =====" ++ nl)) in
      let out := write out (widen (sep ++ nl)) in
      let out := write_body out t in
      let out := write out (widen (sep ++ nl)) in
      write out (widen ("===== END FILE: " ++ rel_path ++ " =====" ++ nl ++ nl))
  end.

(** [f"{i:04d}"] for [i >= 0]. *)
Definition fmt_04d (i : nat) : string :=
  let digits := pretty (Z.of_nat i) in
  PyStr.repeat_str "0" (4 - String.length digits) ++ digits.

(** The table-of-contents loop, [enumerate(files, 1)]. *)
Fixpoint write_toc (out : text) (root : string) (i : nat) (files : list string) : text :=
  match files with
  | [] => out
  | fpath :: rest =>
      let rel := os_path_relpath fpath root in
      write_toc (write out (widen (fmt_04d i ++ ". " ++ rel ++ nl))) root (S i) rest
  end.

(** [write_header]; [now] is the clock reading, already formatted. *)
Definition write_header (out : text) (root : string) (now : string)
    (files : list string) (add_toc : bool) : text :=
  let out := write out (widen ("# TEXT EXPORT OF PROJECT" ++ nl)) in
  let out := write out (widen ("Root: " ++ root ++ nl)) in
  let out := write out (widen ("Generated: " ++ now ++ nl)) in
  let out := write out (widen ("Files found: " ++ pretty (Z.of_nat (length files)) ++ nl)) in
  let out := write out (widen (PyStr.repeat_str "#" 80 ++ nl ++ nl)) in
  if add_toc then
    let out := write out (widen ("TABLE OF CONTENTS" ++ nl)) in
    let out := write_toc out root 1 files in
    write out (widen (nl ++ PyStr.repeat_str "#" 80 ++ nl ++ nl))
  else out.

(** ** [main] *)

Record args : Type := {
  arg_max_bytes : Z;
  arg_include : string;
  arg_exclude_dirs : string;
  arg_toc : bool
}.


(** How a run ends: [sys.exit(1)] with the message on stderr, or the
    document, the candidate list and the two lines printed on stdout. *)
Inductive run_result : Type :=
| Exit1 (stderr : string)
| Exported (document : text) (files : list string) (written : nat) (stdout : list string).

(** *** The output side of a run

    What the operating system answers to the calls of [main] that produce
    output: creating the output directory, opening the output file, a call
    that writes to the document, closing the file, printing a line.
    [None]: the call succeeds; [Some e]: it raises [e]. None of these
    calls sits inside a [try], so an error of any of them ends the run.
    The answer to a writing call may depend on the document before the
    call and on the document as the call would leave it (an [out.write]
    raises, for one, when its text cannot be encoded as UTF-8, as happens
    with a file name that is not valid UTF-8). *)
Record sink : Type := {
  ask_makedirs : option exn;
  ask_open : option exn;
  ask_write : text -> text -> option exn;
  ask_close : text -> option exn;
  ask_print : string -> option exn
}.

(** The call raises, or goes through. *)
Definition raising (answer : option exn) : IO unit :=
  fun _ log =>
    match answer with
    | Some e => (Raised e, log)
    | None => (Returned tt, log)
    end.

(** A call that writes to the document ([write_header],
    [write_file_block]): it raises, or leaves the document as [after]. *)
Definition writing (snk : sink) (before after : text) : IO text :=
  let! _ := raising (ask_write snk before after) in
  ret after.

(** The [for f in files:] loop of [main] on an output that can fail. *)
Fixpoint export_loop_on (snk : sink) (root : string) (max_bytes : Z)
    (files : list string) (out : text) (written : nat) : IO (text * nat) :=
  match files with
  | [] => ret (out, written)
  | f :: rest =>
      let rel := os_path_relpath f root in
      let! r := read_text_safely f max_bytes in
      let! out := writing snk out (write_file_block out rel (fst r) (snd r)) in
      let written := match fst r with Some _ => S written | None => written end in
      export_loop_on snk root max_bytes rest out written
  end.

(** [main], from the resolved [root] on; [tree] is the directory found at
    [root], [None] when [os.path.isdir(root)] is false. *)
Definition main (a : args) (root output now : string) (tree : option node)
    (snk : sink) : IO run_result :=
  match tree with
  | None => ret (Exit1 ("ERROR: directory not found: " ++ root))
  | Some t =>
      let include_exts := resolve_include (arg_include a) in
      let exclude_dirs := resolve_exclude (arg_exclude_dirs a) in
      let files := gather_files t root include_exts exclude_dirs in
      let! _ := raising (ask_makedirs snk) in
      let! _ := raising (ask_open snk) in
      let! out := writing snk [] (write_header [] root now files (arg_toc a)) in
      let! r := export_loop_on snk root (arg_max_bytes a) files out 0 in
      let! _ := raising (ask_close snk (fst r)) in
      let line1 := "Export complete: " ++ output in
      let line2 := "Files successfully written: " ++ pretty (Z.of_nat (snd r))
                     ++ "/" ++ pretty (Z.of_nat (length files)) in
      let! _ := raising (ask_print snk line1) in
      let! _ := raising (ask_print snk line2) in
      ret (Exported (fst r) files (snd r) [line1; line2])
  end.


(** ** The vocabulary of the block invariant *)





(** ** Well-formed directory entries *)

(** What the operating system can report as the name of a directory
    entry: not empty, not [.] or [..], no slash in it. *)
Definition is_entry_name (s : string) : bool :=
  negb (String.eqb s "") && negb (String.eqb s ".") && negb (String.eqb s "..")
  && negb (PyStr.contains "/" s).

(** Every entry of the tree, at any depth, has such a name. *)
Fixpoint entry_names_ok (t : node) : bool :=
  match t with
  | File => true
  | Dir entries =>
      forallb (fun e => is_entry_name (fst e) && entry_names_ok (snd e)) entries
  end.

(** ** The calls a load can make *)

(** The three file-system calls of [read_text_safely] on [path], in the
    order the code makes them. *)
Definition load_calls (path : string) : list syscall :=
  [Getsize path; OpenRead path (Some 2048); OpenRead path None].

(** ** Where a file sits in the tree *)

(** Whether following [names] down from [t] ends at a plain file: all
    names but the last are directories, the last is a file. *)
Fixpoint file_at (names : list string) (t : node) : bool :=
  match names, t with
  | [n], Dir entries =>
      match lookup_name n entries with
      | Some File => true
      | _ => false
      end
  | d :: rest, Dir entries =>
      match lookup_name d entries with
      | Some sub => is_dir sub && file_at rest sub
      | None => false
      end
  | _, _ => false
  end.

(** ** Unicode scalar values *)

(** A code point that is not a surrogate and not above U+10FFFF. *)
Definition is_scalar_value (c : N) : Prop :=
  (c < 55296 ∨ (57344 <= c ∧ c < 1114112))%N.

(** ** The words of the configuration claims

    The operations on the two option values, said without the functions
    that compute them, for strings of code points below U+0100. *)

Module Words.

(** No comma in [s]. *)
Definition comma_free (s : string) : Prop := forall l r, s <> l ++ String "," r.

(** [pieces] are the comma-separated tokens of [s]: strings without a
    comma which, joined with commas, are [s]. *)
Definition tokens_of (s : string) (pieces : list string) : Prop :=
  pieces <> [] /\ Forall comma_free pieces /\ String.concat "," pieces = s.

(** The code points [str.strip()] removes: TAB, LF, VT, FF, CR, FS, GS,
    RS, US, SPACE, NEL and NBSP. *)
Definition blank_codes : list N := [9; 10; 11; 12; 13; 28; 29; 30; 31; 32; 133; 160]%N.

Definition blank (c : ascii) : Prop := In (N_of_ascii c) blank_codes.

Definition all_blank (s : string) : Prop := Forall blank (list_ascii_of_string s).

(** [core] is [tok] without the blanks around it: blanks only were cut
    off, and [core] neither begins nor ends with one. *)
Definition trimmed (tok core : string) : Prop :=
  (exists l r, tok = l ++ core ++ r /\ all_blank l /\ all_blank r)
  /\ (forall c rest, core = String c rest -> ~ blank c)
  /\ (forall front c, core = front ++ String c "" -> ~ blank c).

(** The capital letters: A to Z, and U+00C0 to U+00DE without the
    multiplication sign U+00D7. *)
Definition capital (n : N) : Prop :=
  (65 <= n /\ n <= 90)%N \/ (192 <= n /\ n <= 222 /\ n <> 215)%N.

(** [low] is [s] in lower case: each capital letter gave way to the
    letter 32 code points up, every other character stayed. *)
Inductive lowered : string -> string -> Prop :=
| lowered_nil : lowered "" ""
| lowered_capital (c c' : ascii) (s low : string) :
    capital (N_of_ascii c) ->
    N_of_ascii c' = (N_of_ascii c + 32)%N ->
    lowered s low ->
    lowered (String c s) (String c' low)
| lowered_other (c : ascii) (s low : string) :
    ~ capital (N_of_ascii c) ->
    lowered s low ->
    lowered (String c s) (String c low).

(** [e] is [s] without its leading dots: dots only were cut off, and [e]
    does not begin with one. *)
Definition undotted (s e : string) : Prop :=
  (exists l, s = l ++ e /\ Forall (fun c => c = "."%char) (list_ascii_of_string l))
  /\ (forall rest, e <> String "." rest).

End Words.

(** The two sets as the claim words them: for the include set the tokens,
    lower-cased, a leading dot removed; for the exclude set the default
    set together with the tokens. *)
Definition drop_leading_dot (s : string) : string :=
  match s with
  | String c rest => if Ascii.eqb c "." then rest else s
  | EmptyString => s
  end.

Definition claimed_include_set (include : string) : gset string :=
  list_to_set (map (fun tok => drop_leading_dot (PyStr.lower tok))
                   (PyStr.split "," include)).

Definition claimed_exclude_set (exclude_dirs : string) : gset string :=
  DEFAULT_EXCLUDE_DIRS ∪ list_to_set (PyStr.split "," exclude_dirs).

(** ** Concrete inputs used by the examples below *)

Module Examples.

(** A directory holding [a.py], [b.js] and [Dockerfile]. *)
Definition tree_abd : node :=
  Dir [("a.py", File); ("b.js", File); ("Dockerfile", File)].

(** A project with an upper-case [.GIT] next to [.git]. *)
Definition tree_git : node :=
  Dir [("b.js", File); ("a.py", File); ("Dockerfile", File);
       (".GIT", Dir [("x.py", File)]); (".git", Dir [("y.py", File)]);
       ("src", Dir [("m.PY", File); ("README", File);
                    ("sub", Dir [("z.md", File)])])].

(** A file that can be stat-ed but not opened. *)
Definition fs_denied : oracle :=
  {| ask_getsize := fun _ _ => Returned 10%Z;
     ask_content := fun _ _ => Raised (Exception "[Errno 13] Permission denied") |}.

(** Every file is the five bytes [A 00 B C LF]. *)
Definition fs_null : oracle :=
  {| ask_getsize := fun _ _ => Returned 5%Z;
     ask_content := fun _ _ =>
       Returned [Byte.x41; Byte.x00; Byte.x42; Byte.x43; Byte.x0a] |}.

(** Every file is the four bytes [A c3 a9 LF]; [gone] cannot be stat-ed and
    [locked] cannot be opened. *)
Definition fs_text : oracle :=
  {| ask_getsize := fun _ p =>
       if String.eqb p "gone" then Raised (Exception "[Errno 2] No such file")
       else Returned 4%Z;
     ask_content := fun _ p =>
       if String.eqb p "locked" then Raised (Exception "[Errno 13] Permission denied")
       else Returned [Byte.x41; Byte.xc3; Byte.xa9; Byte.x0a] |}.

(** A file that vanishes after the binary sniff. *)
Definition fs_vanishing : oracle :=
  {| ask_getsize := fun _ _ => Returned 4%Z;
     ask_content := fun log _ =>
       match log with
       | [_] => Returned [Byte.x41; Byte.x42; Byte.x43; Byte.x0a]
       | _ => Raised (Exception "[Errno 2] No such file")
       end |}.

(** A file of 2048 letters [A] followed by one null byte. *)
Definition fs_late_null : oracle :=
  {| ask_getsize := fun _ _ => Returned 2049%Z;
     ask_content := fun _ _ => Returned (repeat Byte.x41 2048 ++ [Byte.x00])%list |}.

(** Every file is the four ASCII bytes [d e f LF]. *)
Definition fs_ascii : oracle :=
  {| ask_getsize := fun _ _ => Returned 4%Z;
     ask_content := fun _ _ => Returned [Byte.x64; Byte.x65; Byte.x66; Byte.x0a] |}.

(** The text of a small well-behaved file: [ab], an empty line, [cd]. *)
Definition plain_file : text := [97; 98; 10; 10; 99; 100; 10]%N.

(** An output on which every call succeeds. *)
Definition sink_ok : sink :=
  {| ask_makedirs := None;
     ask_open := None;
     ask_write := fun _ _ => None;
     ask_close := fun _ => None;
     ask_print := fun _ => None |}.


(** The source line TAB [x], and a one-line file made of it. *)
Definition tab_line : text := [9; 120]%N.
Definition tab_file : text := [9; 120; 10]%N.

End Examples.

(** * Properties *)

(** C1 as stated fails: [Dockerfile] is a candidate next to [a.py]. *)
Lemma C1_counterexample :
  gather_files Examples.tree_abd "/proj" (resolve_include "py") (resolve_exclude "")
  = ["/proj/Dockerfile"; "/proj/a.py"]
  ∧ gather_files Examples.tree_abd "/proj" (resolve_include "py") (resolve_exclude "")
    ≠ ["/proj/a.py"].
Proof. split; vm_compute; [reflexivity | discriminate]. Qed.

(** ** Strings *)

Lemma app_String (c : ascii) (a b : string) : String c a ++ b = String c (a ++ b).
Proof. reflexivity. Qed.

Lemma string_app_assoc (a b c : string) : (a ++ b) ++ c = a ++ (b ++ c).
Proof.
  induction a as [|x a IH]; [reflexivity|].
  change (String x ((a ++ b) ++ c) = String x (a ++ (b ++ c))).
  rewrite IH. reflexivity.
Qed.

Lemma string_app_nil_r (a : string) : a ++ "" = a.
Proof.
  induction a as [|c a IH]; [reflexivity|]. rewrite app_String, IH. reflexivity.
Qed.

Lemma contains_app (sep : ascii) (a b : string) :
  PyStr.contains sep (a ++ b) = PyStr.contains sep a || PyStr.contains sep b.
Proof.
  induction a as [|c a IH]; [reflexivity|].
  rewrite app_String. cbn [PyStr.contains]. rewrite IH. apply orb_assoc.
Qed.

Lemma split_not_nil (sep : ascii) (s : string) : PyStr.split sep s ≠ [].
Proof.
  destruct s as [|c s]; simpl; [discriminate|].
  destruct (Ascii.eqb c sep); [discriminate|].
  destruct (PyStr.split sep s); discriminate.
Qed.

Lemma split_app_sep (sep : ascii) (a b : string) :
  PyStr.split sep (a ++ String sep b) = (PyStr.split sep a ++ PyStr.split sep b)%list.
Proof.
  induction a as [|c a IH].
  - change ("" ++ String sep b) with (String sep b).
    cbn [PyStr.split]. rewrite Ascii.eqb_refl. reflexivity.
  - rewrite app_String. cbn [PyStr.split].
    destruct (Ascii.eqb c sep).
    + rewrite IH. reflexivity.
    + rewrite IH. pose proof (split_not_nil sep a) as Hne.
      destruct (PyStr.split sep a); [contradiction | reflexivity].
Qed.

Lemma split_no_sep (sep : ascii) (s : string) :
  PyStr.contains sep s = false → PyStr.split sep s = [s].
Proof.
  induction s as [|c s IH]; [reflexivity|].
  cbn [PyStr.contains PyStr.split]. intros H.
  apply orb_false_iff in H as [-> H]. rewrite (IH H). reflexivity.
Qed.

(** ** Membership through [sorted], [prune] and [lookup_name] *)

Lemma elem_of_insert_sorted (x y : string) (l : list string) :
  y ∈ insert_sorted x l ↔ y = x ∨ y ∈ l.
Proof.
  induction l as [|z l IH]; simpl.
  - rewrite list_elem_of_singleton, elem_of_nil. tauto.
  - destruct (String.leb x z).
    + rewrite elem_of_cons. tauto.
    + rewrite !elem_of_cons, IH. tauto.
Qed.

Lemma elem_of_sorted (y : string) (l : list string) : y ∈ sorted l ↔ y ∈ l.
Proof.
  induction l as [|x l IH]; simpl; [tauto|].
  rewrite elem_of_insert_sorted, elem_of_cons, IH. tauto.
Qed.

Lemma elem_of_prune (exclude_dirs : gset string) (d : string) (dirnames : list string) :
  d ∈ prune exclude_dirs dirnames ↔ (d ∉ exclude_dirs) ∧ d ∈ dirnames.
Proof.
  unfold prune. rewrite list_elem_of_filter. rewrite elem_of_sorted. tauto.
Qed.

Lemma lookup_name_map {A B : Type} (f : A -> B) (name : string) (l : list (string * A)) :
  lookup_name name (map (fun e => (fst e, f (snd e))) l) = option_map f (lookup_name name l).
Proof.
  induction l as [|[n a] l IH]; simpl; [reflexivity|].
  destruct (String.eqb n name); [reflexivity | exact IH].
Qed.

Lemma lookup_name_dirname (name : string) (sub : list (string * node))
    (entries : list (string * node)) :
  lookup_name name entries = Some (Dir sub) →
  name ∈ map fst (List.filter (fun e => is_dir (snd e)) entries).
Proof.
  induction entries as [|[n t] entries IH]; simpl; [discriminate|].
  destruct (String.eqb_spec n name) as [->|Hne].
  - intros [= ->]. simpl. left.
  - intros H. destruct (is_dir t); simpl; [right|]; auto.
Qed.

(** Induction on directory trees, with the hypothesis for every entry. *)
Lemma node_induction (P : node → Prop) :
  P File →
  (∀ entries, Forall (fun e => P (snd e)) entries → P (Dir entries)) →
  ∀ t, P t.
Proof.
  intros HF HD. fix IH 1. intros [|entries].
  - exact HF.
  - apply HD. induction entries as [|[n t] es IHes]; constructor.
    + apply IH.
    + exact IHes.
Qed.

(** A directory left in [dirnames] is walked, and what its walk finds is
    part of the result. *)
Lemma walk_descends (include_exts exclude_dirs : gset string)
    (entries sub : list (string * node)) (dirpath d f : string) :
  lookup_name d entries = Some (Dir sub) →
  d ∉ exclude_dirs →
  f ∈ walk include_exts exclude_dirs (Dir sub) (os_path_join dirpath d) →
  f ∈ walk include_exts exclude_dirs (Dir entries) dirpath.
Proof.
  intros Hlook Hd Hf.
  change (walk include_exts exclude_dirs (Dir entries) dirpath) with
    (files_here include_exts dirpath
       (map fst (List.filter (fun e => negb (is_dir (snd e))) entries))
     ++ flat_map
          (fun d0 =>
             match lookup_name d0
                     (map (fun e => (fst e, walk include_exts exclude_dirs (snd e))) entries)
             with
             | Some k => k (os_path_join dirpath d0)
             | None => []
             end)
          (prune exclude_dirs
             (map fst (List.filter (fun e => is_dir (snd e)) entries))))%list.
  apply elem_of_app. right.
  apply list_elem_of_In, in_flat_map. exists d. split.
  - apply list_elem_of_In, elem_of_prune. split; [exact Hd|].
    eapply lookup_name_dirname; eauto.
  - rewrite lookup_name_map, Hlook. simpl. apply list_elem_of_In. exact Hf.
Qed.

Lemma walk_dir (include_exts exclude_dirs : gset string)
    (entries : list (string * node)) (dirpath : string) :
  walk include_exts exclude_dirs (Dir entries) dirpath
  = (files_here include_exts dirpath
       (map fst (List.filter (fun e => negb (is_dir (snd e))) entries))
     ++ flat_map
          (fun d =>
             match lookup_name d
                     (map (fun e => (fst e, walk include_exts exclude_dirs (snd e))) entries)
             with
             | Some k => k (os_path_join dirpath d)
             | None => []
             end)
          (prune exclude_dirs
             (map fst (List.filter (fun e => is_dir (snd e)) entries))))%list.
Proof. reflexivity. Qed.

Lemma lookup_name_elem {A : Type} (name : string) (a : A) (l : list (string * A)) :
  lookup_name name l = Some a → (name, a) ∈ l.
Proof.
  induction l as [|[n x] l IH]; simpl; [discriminate|].
  destruct (String.eqb_spec n name) as [->|_].
  - intros [= ->]. left.
  - intros H. right. auto.
Qed.

Lemma file_here_gathered (include_exts exclude_dirs : gset string)
    (entries : list (string * node)) (dirpath fname : string) :
  (fname, File) ∈ entries →
  should_include fname include_exts = true →
  os_path_join dirpath fname ∈ walk include_exts exclude_dirs (Dir entries) dirpath.
Proof.
  intros Hin Hinc. rewrite walk_dir. apply elem_of_app. left.
  unfold files_here. apply list_elem_of_In, in_map, filter_In. split; [|exact Hinc].
  apply list_elem_of_In, elem_of_sorted, list_elem_of_In, in_map_iff.
  exists (fname, File). split; [reflexivity|].
  apply filter_In. split; [apply list_elem_of_In; exact Hin | reflexivity].
Qed.

(** The walk reaches every accepted file that sits below directories none
    of which is excluded. *)
Lemma walk_finds_file (include_exts exclude_dirs : gset string)
    (dirs : list string) (fname : string) :
  ∀ (tree : node) (root : string),
    file_at (dirs ++ [fname]) tree = true →
    Forall (fun d => d ∉ exclude_dirs) dirs →
    should_include fname include_exts = true →
    fold_left os_path_join (dirs ++ [fname]) root
    ∈ walk include_exts exclude_dirs tree root.
Proof.
  induction dirs as [|d dirs IH]; intros tree root Hat Hdirs Hinc.
  - simpl in *. destruct tree as [|entries]; [discriminate|].
    destruct (lookup_name fname entries) as [[|sub]|] eqn:Hl; try discriminate.
    apply file_here_gathered; [|exact Hinc]. apply lookup_name_elem. exact Hl.
  - inversion Hdirs as [|? ? Hd Hrest]; subst.
    destruct tree as [|entries].
    { simpl in Hat. destruct (dirs ++ [fname])%list; discriminate. }
    assert (∃ sub, lookup_name d entries = Some (Dir sub)
                   ∧ file_at (dirs ++ [fname]) (Dir sub) = true)
      as (sub & Hl & Hsub).
    { change ((d :: dirs) ++ [fname])%list with (d :: (dirs ++ [fname]))%list in Hat.
      cbn [file_at] in Hat.
      destruct (dirs ++ [fname])%list as [|x xs] eqn:Hnames.
      { destruct dirs; discriminate. }
      destruct (lookup_name d entries) as [[|sub]|]; try discriminate.
      exists sub. split; [reflexivity|]. exact Hat. }
    eapply walk_descends; [exact Hl | exact Hd |].
    change (fold_left os_path_join ((d :: dirs) ++ [fname]) root)
      with (fold_left os_path_join (dirs ++ [fname]) (os_path_join root d)).
    apply IH; assumption.
Qed.

(** Every gathered path is a directory path joined with a file name that
    [should_include] accepted. *)
Lemma walk_only_included (include_exts exclude_dirs : gset string) (t : node) :
  ∀ dirpath p,
    p ∈ walk include_exts exclude_dirs t dirpath →
    ∃ dir fname, p = os_path_join dir fname
                 ∧ should_include fname include_exts = true.
Proof.
  induction t as [|entries IH] using node_induction; intros dirpath p Hp.
  - simpl in Hp. apply elem_of_nil in Hp. contradiction.
  - simpl in Hp. apply elem_of_app in Hp as [Hp|Hp].
    + unfold files_here in Hp. apply list_elem_of_In, in_map_iff in Hp.
      destruct Hp as (fname & <- & Hin). apply filter_In in Hin as [_ Hinc].
      eauto.
    + apply list_elem_of_In, in_flat_map in Hp. destruct Hp as (d & _ & Hp).
      rewrite lookup_name_map in Hp.
      destruct (lookup_name d entries) as [t|] eqn:Hl; simpl in Hp; [|contradiction].
      assert (Ht : ∀ dirpath p, p ∈ walk include_exts exclude_dirs t dirpath →
                ∃ dir fname, p = os_path_join dir fname
                             ∧ should_include fname include_exts = true).
      { clear Hp. induction entries as [|[n t'] es IHes]; simpl in Hl; [discriminate|].
        inversion IH as [|? ? Hhd Htl]; subst.
        destruct (String.eqb n d).
        - injection Hl as <-. exact Hhd.
        - apply IHes; assumption. }
      eapply Ht. apply list_elem_of_In. exact Hp.
Qed.

(** ** The include policy *)

Lemma should_include_special (filename : string) (include_exts : gset string) :
  PyStr.lower filename ∈ SPECIAL_FILENAMES → should_include filename include_exts = true.
Proof. intros H. unfold should_include. rewrite bool_decide_eq_true_2; auto. Qed.

Lemma should_include_empty (filename : string) :
  should_include filename ∅ = true ↔
  PyStr.lower filename = "dockerfile" ∨ PyStr.lower filename = "jenkinsfile".
Proof.
  unfold should_include, SPECIAL_FILENAMES.
  destruct (bool_decide_reflect (PyStr.lower filename ∈ ({[ "dockerfile"; "jenkinsfile" ]} : gset string))) as [H|H].
  - split; [intros _|reflexivity]. set_solver.
  - split.
    + destruct (PyStr.contains "." (PyStr.lower filename)); [|discriminate].
      intros Hin. apply bool_decide_eq_true_1 in Hin. set_solver.
    + intros Hor. exfalso. apply H. set_solver.
Qed.

(** C1, as the code has it: with [--include "py"] the tree holding
    [a.py], [b.js] and [Dockerfile] yields two candidates, [Dockerfile] then
    [a.py], under any root and any [--exclude-dirs]; [b.js] is not one.
    [--include] replaces the extension set, but a special file name is
    accepted whatever that set is. *)
Theorem C1_include_py_keeps_dockerfile :
  (∀ root exclude_dirs,
     gather_files Examples.tree_abd root (resolve_include "py") exclude_dirs
     = [os_path_join root "Dockerfile"; os_path_join root "a.py"])
  ∧ should_include "b.js" (resolve_include "py") = false
  ∧ (∀ include_exts, should_include "Dockerfile" include_exts = true).
Proof.
  split; [|split].
  - intros root exclude_dirs. unfold gather_files, Examples.tree_abd.
    cbn [walk]. unfold prune. cbn [List.filter map fst snd is_dir negb sorted fold_right].
    rewrite filter_nil. cbn [flat_map]. rewrite app_nil_r.
    unfold files_here. f_equal.
  - vm_compute. reflexivity.
  - intros include_exts. apply should_include_special. vm_compute. reflexivity.
Qed.

(** ** Configuration resolution *)

Lemma elem_of_include_tokens (include e : string) :
  e ∈ include_tokens include ↔
  ∃ tok, tok ∈ PyStr.split "," include ∧ PyStr.strip tok ≠ ""
         ∧ e = PyStr.lstrip_dot (PyStr.lower (PyStr.strip tok)).
Proof.
  unfold include_tokens. rewrite elem_of_list_to_set.
  rewrite list_elem_of_In. rewrite in_map_iff. split.
  - intros (tok & <- & Hin). apply list_elem_of_In in Hin.
    apply list_elem_of_filter in Hin as [Hne Hin]. eauto.
  - intros (tok & Hin & Hne & ->). exists tok. split; [reflexivity|].
    apply list_elem_of_In, list_elem_of_filter. auto.
Qed.

Lemma elem_of_exclude_tokens (exclude_dirs d : string) :
  d ∈ exclude_tokens exclude_dirs ↔
  ∃ tok, tok ∈ PyStr.split "," exclude_dirs ∧ PyStr.strip tok ≠ ""
         ∧ d = PyStr.strip tok.
Proof.
  unfold exclude_tokens. rewrite elem_of_list_to_set.
  rewrite list_elem_of_In. rewrite in_map_iff. split.
  - intros (tok & <- & Hin). apply list_elem_of_In in Hin.
    apply list_elem_of_filter in Hin as [Hne Hin]. eauto.
  - intros (tok & Hin & Hne & ->). exists tok. split; [reflexivity|].
    apply list_elem_of_In, list_elem_of_filter. auto.
Qed.

Lemma resolve_include_given (include : string) :
  PyStr.strip include ≠ "" → resolve_include include = include_tokens include.
Proof.
  intros H. unfold resolve_include.
  apply String.eqb_neq in H. rewrite H. reflexivity.
Qed.

Lemma resolve_exclude_given (exclude_dirs : string) :
  PyStr.strip exclude_dirs ≠ "" →
  resolve_exclude exclude_dirs = DEFAULT_EXCLUDE_DIRS ∪ exclude_tokens exclude_dirs.
Proof.
  intros H. unfold resolve_exclude.
  apply String.eqb_neq in H. rewrite H. reflexivity.
Qed.

(** *** The string functions of lines 150 and 154 against the words *)

Lemma chars_app (a b : string) :
  list_ascii_of_string (a ++ b)
  = (list_ascii_of_string a ++ list_ascii_of_string b)%list.
Proof.
  induction a as [|c a IH]; [reflexivity|].
  rewrite app_String. simpl. rewrite IH. reflexivity.
Qed.

Lemma contains_true_cut (sep : ascii) (s : string) :
  PyStr.contains sep s = true → ∃ l r, s = l ++ String sep r.
Proof.
  induction s as [|c s IH]; cbn [PyStr.contains]; [discriminate|].
  destruct (Ascii.eqb_spec c sep) as [->|_]; simpl.
  - intros _. exists "", s. reflexivity.
  - intros H. destruct (IH H) as (l & r & ->). exists (String c l), r. reflexivity.
Qed.

Lemma comma_free_contains (s : string) :
  Words.comma_free s ↔ PyStr.contains "," s = false.
Proof.
  split.
  - intros Hfree. destruct (PyStr.contains "," s) eqn:E; [|reflexivity].
    apply contains_true_cut in E as (l & r & ->). exfalso. eapply Hfree. reflexivity.
  - intros Hc l r ->. rewrite contains_app in Hc. cbn [PyStr.contains] in Hc.
    rewrite Ascii.eqb_refl, orb_true_r in Hc. discriminate.
Qed.

Lemma split_pieces_free (sep : ascii) (s : string) :
  Forall (fun piece => PyStr.contains sep piece = false) (PyStr.split sep s).
Proof.
  induction s as [|c s IH]; [repeat constructor|].
  cbn [PyStr.split]. destruct (Ascii.eqb c sep) eqn:E.
  - constructor; [reflexivity | exact IH].
  - destruct (PyStr.split sep s) as [|piece rest].
    + repeat constructor. cbn [PyStr.contains]. rewrite E. reflexivity.
    + inversion IH; subst. constructor; [|assumption].
      cbn [PyStr.contains]. rewrite E. assumption.
Qed.

Lemma split_join (s : string) : String.concat "," (PyStr.split "," s) = s.
Proof.
  induction s as [|c s IH]; [reflexivity|].
  cbn [PyStr.split]. pose proof (split_not_nil "," s) as Hne.
  destruct (PyStr.split "," s) as [|piece rest]; [contradiction|].
  destruct (Ascii.eqb_spec c ",") as [->|_].
  - change (String.concat "," ("" :: piece :: rest))
      with (String "," (String.concat "," (piece :: rest))).
    rewrite IH. reflexivity.
  - destruct rest as [|q rest].
    + simpl in *. rewrite IH. reflexivity.
    + change (String.concat "," (String c piece :: q :: rest))
        with (String c (String.concat "," (piece :: q :: rest))).
      rewrite IH. reflexivity.
Qed.

Lemma join_split (pieces : list string) :
  pieces ≠ [] →
  Forall (fun piece => PyStr.contains "," piece = false) pieces →
  PyStr.split "," (String.concat "," pieces) = pieces.
Proof.
  induction pieces as [|x xs IH]; [congruence|]. intros _ Hfree.
  inversion Hfree as [|? ? Hx Hxs]; subst.
  destruct xs as [|y ys].
  - simpl. apply split_no_sep. exact Hx.
  - change (String.concat "," (x :: y :: ys))
      with (x ++ String "," (String.concat "," (y :: ys))).
    rewrite split_app_sep, (split_no_sep _ _ Hx), IH; [reflexivity|discriminate|exact Hxs].
Qed.

(** [split(",")] gives the comma-separated tokens, and nothing else does. *)
Lemma tokens_of_split (s : string) (pieces : list string) :
  Words.tokens_of s pieces ↔ pieces = PyStr.split "," s.
Proof.
  split.
  - intros (Hne & Hfree & <-). symmetry. apply join_split; [exact Hne|].
    eapply Forall_impl; [exact Hfree|]. intros x. apply comma_free_contains.
  - intros ->. split; [apply split_not_nil|]. split; [|apply split_join].
    eapply Forall_impl; [apply split_pieces_free|]. intros x. apply comma_free_contains.
Qed.

Lemma is_space_blank (c : ascii) : PyStr.is_space c = true ↔ Words.blank c.
Proof.
  unfold PyStr.is_space, Words.blank, Words.blank_codes. simpl In.
  rewrite !orb_true_iff, !andb_true_iff, !N.leb_le, !N.eqb_eq. lia.
Qed.

Lemma is_space_not_blank (c : ascii) : PyStr.is_space c = false ↔ ¬ Words.blank c.
Proof.
  rewrite <- is_space_blank. destruct (PyStr.is_space c); split; congruence.
Qed.

Lemma lstrip_by_decomp (p : ascii → bool) (s : string) :
  ∃ l, s = l ++ PyStr.lstrip_by p s
       ∧ Forall (fun c => p c = true) (list_ascii_of_string l).
Proof.
  induction s as [|c s IH].
  - exists "". split; [reflexivity | constructor].
  - cbn [PyStr.lstrip_by]. destruct (p c) eqn:Hc.
    + destruct IH as (l & Hs & Hl). exists (String c l). split.
      * rewrite app_String. f_equal. exact Hs.
      * simpl. constructor; assumption.
    + exists "". split; [reflexivity | constructor].
Qed.

Lemma lstrip_by_head (p : ascii → bool) (s : string) (c : ascii) (rest : string) :
  PyStr.lstrip_by p s = String c rest → p c = false.
Proof.
  induction s as [|a s IH]; cbn [PyStr.lstrip_by]; [discriminate|].
  destruct (p a) eqn:Ha; [exact IH|]. intros [= <- _]. exact Ha.
Qed.

Lemma lstrip_by_all (p : ascii → bool) (s : string) :
  Forall (fun c => p c = true) (list_ascii_of_string s) → PyStr.lstrip_by p s = "".
Proof.
  induction s as [|c s IH]; [reflexivity|]. simpl. intros H.
  inversion H as [|? ? Hc Hs]; subst. rewrite Hc. auto.
Qed.

Lemma lstrip_by_unique (p : ascii → bool) (l e : string) :
  Forall (fun c => p c = true) (list_ascii_of_string l) →
  (∀ c rest, e = String c rest → p c = false) →
  PyStr.lstrip_by p (l ++ e) = e.
Proof.
  induction l as [|a l IH]; intros Hl He.
  - change ("" ++ e) with e. destruct e as [|c rest]; [reflexivity|].
    cbn [PyStr.lstrip_by]. rewrite (He c rest eq_refl). reflexivity.
  - simpl in Hl. inversion Hl as [|? ? Ha Hl']; subst.
    rewrite app_String. cbn [PyStr.lstrip_by]. rewrite Ha. auto.
Qed.

Lemma rstrip_by_decomp (p : ascii → bool) (s : string) :
  ∃ r, s = PyStr.rstrip_by p s ++ r
       ∧ Forall (fun c => p c = true) (list_ascii_of_string r).
Proof.
  induction s as [|c s IH].
  - exists "". split; [reflexivity | constructor].
  - cbn [PyStr.rstrip_by]. destruct IH as (r & Hs & Hr).
    destruct (PyStr.rstrip_by p s) as [|d t].
    + change ("" ++ r) with r in Hs. subst r. destruct (p c) eqn:Hc.
      * exists (String c s). split; [reflexivity|]. simpl. constructor; assumption.
      * exists s. split; [reflexivity | exact Hr].
    + exists r. split; [|exact Hr]. rewrite app_String. f_equal. exact Hs.
Qed.

Lemma rstrip_by_last (p : ascii → bool) (s : string) :
  ∀ front c, PyStr.rstrip_by p s = front ++ String c "" → p c = false.
Proof.
  induction s as [|a s IH]; intros front c.
  - cbn [PyStr.rstrip_by]. destruct front; discriminate.
  - cbn [PyStr.rstrip_by]. destruct (PyStr.rstrip_by p s) as [|d t].
    + destruct (p a) eqn:Ha.
      * destruct front; discriminate.
      * destruct front as [|f front].
        -- intros [= ->]. exact Ha.
        -- rewrite app_String. intros [= _ H]. destruct front; discriminate.
    + destruct front as [|f front].
      * intros H. discriminate.
      * rewrite app_String. intros [= _ H]. apply (IH front c). exact H.
Qed.

Lemma rstrip_by_all (p : ascii → bool) (s : string) :
  Forall (fun c => p c = true) (list_ascii_of_string s) → PyStr.rstrip_by p s = "".
Proof.
  induction s as [|c s IH]; [reflexivity|]. simpl. intros H.
  inversion H as [|? ? Hc Hs]; subst. rewrite (IH Hs), Hc. reflexivity.
Qed.

Lemma rstrip_by_unique (p : ascii → bool) (e r : string) :
  Forall (fun c => p c = true) (list_ascii_of_string r) →
  (∀ front c, e = front ++ String c "" → p c = false) →
  PyStr.rstrip_by p (e ++ r) = e.
Proof.
  induction e as [|a e IH]; intros Hr He.
  - change ("" ++ r) with r. apply rstrip_by_all. exact Hr.
  - rewrite app_String. cbn [PyStr.rstrip_by]. rewrite IH; [|exact Hr|].
    + destruct e as [|d t]; [|reflexivity].
      rewrite (He "" a eq_refl). reflexivity.
    + intros front c ->. apply (He (String a front) c). reflexivity.
Qed.

(** [strip()] cuts off the blanks around a token, and only those. *)
Lemma trimmed_strip (tok core : string) :
  Words.trimmed tok core ↔ PyStr.strip tok = core.
Proof.
  assert (Hblank : ∀ x, Forall (fun c => PyStr.is_space c = true) (list_ascii_of_string x)
                        ↔ Words.all_blank x).
  { intros x. unfold Words.all_blank. split; intros H;
      (eapply Forall_impl; [exact H|]); intros c; apply is_space_blank. }
  split.
  - intros ((l & r & -> & Hl & Hr) & Hhead & Hlast). unfold PyStr.strip.
    apply Hblank in Hl, Hr. destruct core as [|c rest].
    + change ("" ++ r) with r. rewrite lstrip_by_all; [reflexivity|].
      rewrite chars_app. apply Forall_app. auto.
    + rewrite lstrip_by_unique; [|exact Hl|].
      * apply rstrip_by_unique; [exact Hr|].
        intros front x Hx. apply is_space_not_blank. eapply Hlast. exact Hx.
      * rewrite app_String. intros x rest' [= <- _].
        apply is_space_not_blank. eapply Hhead. reflexivity.
  - intros <-. unfold PyStr.strip.
    destruct (lstrip_by_decomp PyStr.is_space tok) as (l & Hl & HlF).
    destruct (rstrip_by_decomp PyStr.is_space (PyStr.lstrip_by PyStr.is_space tok))
      as (r & Hr & HrF).
    split; [|split].
    + exists l, r. split; [|split; apply Hblank; assumption].
      rewrite <- Hr. exact Hl.
    + intros c rest Hcore. apply is_space_not_blank.
      rewrite Hcore, app_String in Hr. eapply lstrip_by_head. exact Hr.
    + intros front c Hcore. apply is_space_not_blank.
      eapply rstrip_by_last. exact Hcore.
Qed.

Lemma blank_strip (s : string) : Words.all_blank s ↔ PyStr.strip s = "".
Proof.
  rewrite <- trimmed_strip. split.
  - intros H. split; [|split].
    + exists s, "". split; [|split; [exact H | constructor]].
      change ("" ++ "") with "". rewrite string_app_nil_r. reflexivity.
    + intros c rest Hc. discriminate.
    + intros front c Hc. destruct front; discriminate.
  - intros ((l & r & -> & Hl & Hr) & _). change ("" ++ r) with r.
    unfold Words.all_blank in *. rewrite chars_app. apply Forall_app. auto.
Qed.

Lemma lower_char_capital (c : ascii) :
  Words.capital (N_of_ascii c) →
  N_of_ascii (PyStr.lower_char c) = (N_of_ascii c + 32)%N.
Proof.
  unfold Words.capital, PyStr.lower_char. intros H.
  pose proof (N_ascii_bounded c) as Hb.
  destruct ((65 <=? N_of_ascii c)%N && (N_of_ascii c <=? 90)%N) eqn:E1.
  { apply N_ascii_embedding.
    apply andb_true_iff in E1 as [_ E1]. apply N.leb_le in E1. lia. }
  destruct ((192 <=? N_of_ascii c)%N && (N_of_ascii c <=? 222)%N
            && negb (N_of_ascii c =? 215)%N) eqn:E2.
  { apply N_ascii_embedding.
    apply andb_true_iff in E2 as [E2 _]. apply andb_true_iff in E2 as [_ E2].
    apply N.leb_le in E2. lia. }
  exfalso.
  rewrite andb_false_iff, !N.leb_gt in E1.
  rewrite !andb_false_iff, !N.leb_gt, negb_false_iff, N.eqb_eq in E2. lia.
Qed.

Lemma lower_char_other (c : ascii) :
  ¬ Words.capital (N_of_ascii c) → PyStr.lower_char c = c.
Proof.
  unfold Words.capital, PyStr.lower_char. intros H.
  destruct ((65 <=? N_of_ascii c)%N && (N_of_ascii c <=? 90)%N) eqn:E1.
  { exfalso. apply H. apply andb_true_iff in E1 as [E E']. apply N.leb_le in E, E'. lia. }
  destruct ((192 <=? N_of_ascii c)%N && (N_of_ascii c <=? 222)%N
            && negb (N_of_ascii c =? 215)%N) eqn:E2; [|reflexivity].
  exfalso. apply H.
  apply andb_true_iff in E2 as [E2 E3]. apply andb_true_iff in E2 as [E E'].
  apply N.leb_le in E, E'. apply negb_true_iff, N.eqb_neq in E3. lia.
Qed.

(** [lower()] puts a name in lower case, and nothing else does. *)
Lemma lowered_lower (s low : string) :
  Words.lowered s low ↔ PyStr.lower s = low.
Proof.
  split.
  - induction 1 as [|c c' s low Hcap Hc' _ IH|c s low Hcap _ IH]; cbn [PyStr.lower].
    + reflexivity.
    + f_equal; [|exact IH].
      rewrite <- (ascii_N_embedding (PyStr.lower_char c)), <- (ascii_N_embedding c').
      f_equal. rewrite Hc'. apply lower_char_capital. exact Hcap.
    + f_equal; [|exact IH]. apply lower_char_other. exact Hcap.
  - intros <-. induction s as [|c s IH]; cbn [PyStr.lower]; [constructor|].
    assert (Words.capital (N_of_ascii c) ∨ ¬ Words.capital (N_of_ascii c)) as [Hcap|Hcap]
      by (unfold Words.capital; lia).
    + apply Words.lowered_capital; [exact Hcap | apply lower_char_capital; exact Hcap | exact IH].
    + rewrite lower_char_other by exact Hcap.
      apply Words.lowered_other; assumption.
Qed.

(** [lstrip(".")] cuts off the leading dots, all of them and only them. *)
Lemma undotted_lstrip_dot (s e : string) :
  Words.undotted s e ↔ PyStr.lstrip_dot s = e.
Proof.
  assert (Hdots : ∀ x, Forall (fun c => Ascii.eqb "." c = true) (list_ascii_of_string x)
                       ↔ Forall (fun c => c = "."%char) (list_ascii_of_string x)).
  { intros x. split; intros H; (eapply Forall_impl; [exact H|]); intros c.
    - intros Hc. apply Ascii.eqb_eq in Hc. congruence.
    - intros ->. reflexivity. }
  unfold PyStr.lstrip_dot. split.
  - intros ((l & -> & Hl) & He). apply lstrip_by_unique; [apply Hdots; exact Hl|].
    intros c rest -> . apply Ascii.eqb_neq. intros <-. eapply He. reflexivity.
  - intros <-. destruct (lstrip_by_decomp (Ascii.eqb ".") s) as (l & Hs & Hl).
    split.
    + exists l. split; [exact Hs | apply Hdots; exact Hl].
    + intros rest Hrest. apply lstrip_by_head in Hrest. discriminate.
Qed.

(** C2 as stated fails: on [--include "py, .md,"] the tokens, lower-cased
    and freed of a leading dot, would hold [" .md"] and the empty string;
    the resolved set is [py], [md]. *)
Lemma C2_counterexample :
  elements (resolve_include "py, .md,") = ["md"; "py"]
  ∧ " .md" ∈ claimed_include_set "py, .md,"
  ∧ (" .md" ∉ resolve_include "py, .md,")
  ∧ resolve_include "py, .md," ≠ claimed_include_set "py, .md,"
  ∧ resolve_exclude "a, b" ≠ claimed_exclude_set "a, b".
Proof.
  assert (H1 : " .md" ∈ claimed_include_set "py, .md,") by (vm_compute; reflexivity).
  assert (H2 : " .md" ∉ resolve_include "py, .md,") by (vm_compute; discriminate).
  split; [vm_compute; reflexivity|]. split; [exact H1|]. split; [exact H2|]. split.
  - intros Heq. apply H2. rewrite Heq. exact H1.
  - intros Heq.
    assert (" b" ∈ claimed_exclude_set "a, b") as H3 by (vm_compute; reflexivity).
    rewrite <- Heq in H3. vm_compute in H3. discriminate.
Qed.

(** C2, as the code has it: when [--include] is not blank, the include set
    holds exactly the comma-separated tokens that are not blank, each
    trimmed of the blanks around it, put in lower case and freed of all
    its leading dots, and nothing of the default set as such; when
    [--exclude-dirs] is not blank, the exclude set holds the default names
    together with the comma-separated tokens that are not blank, each
    trimmed of the blanks around it. *)
Theorem C2_include_replaces_exclude_unions (include exclude_dirs : string) :
  ¬ Words.all_blank include →
  ¬ Words.all_blank exclude_dirs →
  (∀ e, e ∈ resolve_include include ↔
        ∃ pieces tok core low,
          Words.tokens_of include pieces ∧ tok ∈ pieces
          ∧ Words.trimmed tok core ∧ core ≠ ""
          ∧ Words.lowered core low ∧ Words.undotted low e)
  ∧ (∀ d, d ∈ resolve_exclude exclude_dirs ↔
          d ∈ DEFAULT_EXCLUDE_DIRS
          ∨ ∃ pieces tok,
              Words.tokens_of exclude_dirs pieces ∧ tok ∈ pieces
              ∧ Words.trimmed tok d ∧ d ≠ "").
Proof.
  intros Hinc Hexc. rewrite blank_strip in Hinc, Hexc. split.
  - intros e. rewrite resolve_include_given by assumption.
    rewrite elem_of_include_tokens. split.
    + intros (tok & Hin & Hne & ->).
      exists (PyStr.split "," include), tok, (PyStr.strip tok),
        (PyStr.lower (PyStr.strip tok)).
      split; [apply tokens_of_split; reflexivity|]. split; [exact Hin|].
      split; [apply trimmed_strip; reflexivity|]. split; [exact Hne|].
      split; [apply lowered_lower; reflexivity | apply undotted_lstrip_dot; reflexivity].
    + intros (pieces & tok & core & low & Hp & Hin & Ht & Hne & Hl & Hu).
      apply tokens_of_split in Hp as ->. apply trimmed_strip in Ht as <-.
      apply lowered_lower in Hl as <-. apply undotted_lstrip_dot in Hu as <-.
      exists tok. auto.
  - intros d. rewrite resolve_exclude_given by assumption.
    rewrite elem_of_union, elem_of_exclude_tokens. split.
    + intros [Hd|(tok & Hin & Hne & ->)]; [left; exact Hd|]. right.
      exists (PyStr.split "," exclude_dirs), tok.
      split; [apply tokens_of_split; reflexivity|]. split; [exact Hin|].
      split; [apply trimmed_strip; reflexivity | exact Hne].
    + intros [Hd|(pieces & tok & Hp & Hin & Ht & Hne)]; [left; exact Hd|]. right.
      apply tokens_of_split in Hp as ->. apply trimmed_strip in Ht as <-.
      exists tok. auto.
Qed.

Lemma C2_witness :
  (∀ e, e ∈ resolve_include " .PY,md" ↔
        ∃ pieces tok core low,
          Words.tokens_of " .PY,md" pieces ∧ tok ∈ pieces
          ∧ Words.trimmed tok core ∧ core ≠ ""
          ∧ Words.lowered core low ∧ Words.undotted low e)
  ∧ (∀ d, d ∈ resolve_exclude "custom" ↔
          d ∈ DEFAULT_EXCLUDE_DIRS
          ∨ ∃ pieces tok,
              Words.tokens_of "custom" pieces ∧ tok ∈ pieces
              ∧ Words.trimmed tok d ∧ d ≠ "").
Proof.
  apply (C2_include_replaces_exclude_unions " .PY,md" "custom").
  - intros H. apply blank_strip in H. vm_compute in H. discriminate.
  - intros H. apply blank_strip in H. vm_compute in H. discriminate.
Defined.

(** The replacement and the union on a concrete command line. *)
Example resolve_sets_example :
  elements (resolve_include " .PY,md") = ["md"; "py"]
  ∧ ("js" ∉ resolve_include " .PY,md")
  ∧ "custom" ∈ resolve_exclude "custom"
  ∧ "node_modules" ∈ resolve_exclude "custom"
  ∧ resolve_include "  " = DEFAULT_INCLUDE_EXT.
Proof. repeat split; vm_compute; try reflexivity; discriminate. Qed.

(** C10: when [--include] is not blank but every token between its commas
    is, the include set is empty, [should_include] accepts exactly the names
    whose lower-case form is [dockerfile] or [jenkinsfile], and every
    gathered path ends in such a name. *)
Theorem C10_blank_tokens_only_special_names (include : string) :
  PyStr.strip include ≠ "" →
  (∀ tok, tok ∈ PyStr.split "," include → PyStr.strip tok = "") →
  resolve_include include = ∅
  ∧ (∀ fname, should_include fname (resolve_include include) = true ↔
              PyStr.lower fname = "dockerfile" ∨ PyStr.lower fname = "jenkinsfile")
  ∧ (∀ tree root exclude_dirs p,
       p ∈ gather_files tree root (resolve_include include) exclude_dirs →
       ∃ dir fname, p = os_path_join dir fname
                    ∧ (PyStr.lower fname = "dockerfile"
                       ∨ PyStr.lower fname = "jenkinsfile")).
Proof.
  intros Hne Hblank.
  assert (Hempty : resolve_include include = ∅).
  { rewrite resolve_include_given by assumption.
    apply set_eq. intros e. rewrite elem_of_include_tokens. split.
    - intros (tok & Hin & Htok & _). exfalso. apply Htok. auto.
    - intros H. apply not_elem_of_empty in H. contradiction. }
  split; [exact Hempty|]. rewrite Hempty. split.
  - intros fname. apply should_include_empty.
  - intros tree root exclude_dirs p Hp. unfold gather_files in Hp.
    apply walk_only_included in Hp as (dir & fname & -> & Hinc).
    exists dir, fname. split; [reflexivity|]. apply should_include_empty. exact Hinc.
Qed.

Lemma C10_witness :
  resolve_include "," = ∅
  ∧ (∀ fname, should_include fname (resolve_include ",") = true ↔
              PyStr.lower fname = "dockerfile" ∨ PyStr.lower fname = "jenkinsfile")
  ∧ (∀ tree root exclude_dirs p,
       p ∈ gather_files tree root (resolve_include ",") exclude_dirs →
       ∃ dir fname, p = os_path_join dir fname
                    ∧ (PyStr.lower fname = "dockerfile"
                       ∨ PyStr.lower fname = "jenkinsfile")).
Proof.
  apply (C10_blank_tokens_only_special_names ",").
  - vm_compute. discriminate.
  - intros tok Htok. simpl in Htok.
    apply elem_of_cons in Htok as [->|Htok]; [reflexivity|].
    apply list_elem_of_singleton in Htok as ->. reflexivity.
Defined.

(** ** Pruning is exact, name matching is not *)

Lemma should_include_case_blind (f g : string) (include_exts : gset string) :
  PyStr.lower f = PyStr.lower g →
  should_include f include_exts = should_include g include_exts.
Proof. intros H. unfold should_include. rewrite H. reflexivity. Qed.

(** C8: a directory whose name differs only in letter case from an excluded
    name, and is not itself in the exclude set, stays in [dirnames] while
    the excluded name is removed from it, and it is walked: every file
    below it whose name [should_include] accepts, reached through
    directories that are not excluded, is gathered under its path, and
    whatever its walk finds is part of the result. File names, in
    contrast, are judged on their lower-case form alone. *)
Theorem C8_pruning_is_case_sensitive
    (include_exts exclude_dirs : gset string)
    (entries sub : list (string * node)) (root d e : string) :
  e ∈ exclude_dirs →
  PyStr.lower d = PyStr.lower e →
  d ∉ exclude_dirs →
  lookup_name d entries = Some (Dir sub) →
  d ∈ prune exclude_dirs (map fst (List.filter (fun x => is_dir (snd x)) entries))
  ∧ (e ∉ prune exclude_dirs (map fst (List.filter (fun x => is_dir (snd x)) entries)))
  ∧ (∀ dirs fname,
       file_at (dirs ++ [fname]) (Dir sub) = true →
       Forall (fun x => x ∉ exclude_dirs) dirs →
       should_include fname include_exts = true →
       fold_left os_path_join (d :: dirs ++ [fname]) root
       ∈ gather_files (Dir entries) root include_exts exclude_dirs)
  ∧ (∀ f, f ∈ walk include_exts exclude_dirs (Dir sub) (os_path_join root d) →
          f ∈ gather_files (Dir entries) root include_exts exclude_dirs)
  ∧ (∀ f g, PyStr.lower f = PyStr.lower g →
            should_include f include_exts = should_include g include_exts).
Proof.
  intros He _ Hd Hlook. split; [|split; [|split; [|split]]].
  - apply elem_of_prune. split; [exact Hd|].
    eapply lookup_name_dirname; eauto.
  - intros Hin. apply elem_of_prune in Hin as [Hne _]. contradiction.
  - intros dirs fname Hat Hdirs Hinc. unfold gather_files.
    eapply walk_descends; [exact Hlook | exact Hd |].
    change (fold_left os_path_join (d :: dirs ++ [fname]) root)
      with (fold_left os_path_join (dirs ++ [fname]) (os_path_join root d)).
    apply walk_finds_file; assumption.
  - intros f Hf. unfold gather_files. eapply walk_descends; eauto.
  - intros f g. apply should_include_case_blind.
Qed.

Lemma C8_witness :
  let entries := [("a.py", File); (".GIT", Dir [("x.py", File)]);
                  (".git", Dir [("y.py", File)])] in
  ".GIT" ∈ prune (resolve_exclude "")
             (map fst (List.filter (fun x => is_dir (snd x)) entries))
  ∧ (".git" ∉ prune (resolve_exclude "")
                (map fst (List.filter (fun x => is_dir (snd x)) entries)))
  ∧ (∀ dirs fname,
       file_at (dirs ++ [fname]) (Dir [("x.py", File)]) = true →
       Forall (fun x => x ∉ resolve_exclude "") dirs →
       should_include fname (resolve_include "") = true →
       fold_left os_path_join (".GIT" :: dirs ++ [fname]) "/proj"
       ∈ gather_files (Dir entries) "/proj" (resolve_include "") (resolve_exclude ""))
  ∧ (∀ f, f ∈ walk (resolve_include "") (resolve_exclude "")
                 (Dir [("x.py", File)]) (os_path_join "/proj" ".GIT") →
          f ∈ gather_files (Dir entries) "/proj" (resolve_include "") (resolve_exclude ""))
  ∧ (∀ f g, PyStr.lower f = PyStr.lower g →
            should_include f (resolve_include "") = should_include g (resolve_include "")).
Proof.
  intros entries.
  apply (C8_pruning_is_case_sensitive (resolve_include "") (resolve_exclude "")
           entries [("x.py", File)] "/proj" ".GIT" ".git").
  - vm_compute. reflexivity.
  - reflexivity.
  - vm_compute. discriminate.
  - reflexivity.
Defined.

(** The same on a whole tree: [.GIT] is walked, [.git] is not, and
    [m.PY] is taken for its extension [py]. *)
Example gather_tree_git :
  gather_files Examples.tree_git "/proj" (resolve_include "py") (resolve_exclude "")
  = ["/proj/Dockerfile"; "/proj/a.py"; "/proj/.GIT/x.py"; "/proj/src/m.PY"].
Proof. vm_compute. reflexivity. Qed.

(** ** The content loader *)

Section LoaderFacts.
Variable fs : oracle.
Variable path : string.
Variable max_bytes : Z.
Variable log : list syscall.

Local Abbreviation log1 := (log ++ [Getsize path])%list.
Local Abbreviation log2 := (log1 ++ [OpenRead path (Some 2048)])%list.
Local Abbreviation log3 := (log2 ++ [OpenRead path None])%list.

Lemma load_getsize_raises (e : exn) :
  ask_getsize fs log path = Raised e →
  read_text_safely path max_bytes fs log
  = (Returned (None, Some (note_error e)), log1).
Proof.
  intros H. unfold read_text_safely, try_except, bind, os_path_getsize.
  rewrite H. reflexivity.
Qed.

Lemma load_too_big (size : Z) :
  ask_getsize fs log path = Returned size →
  (size > max_bytes)%Z →
  read_text_safely path max_bytes fs log
  = (Returned (None, Some (note_size size max_bytes)), log1).
Proof.
  intros H Hgt. unfold read_text_safely, try_except, bind, os_path_getsize.
  rewrite H. replace (size >? max_bytes)%Z with true; [reflexivity|].
  symmetry. apply Z.gtb_lt. lia.
Qed.

Lemma load_sniff_raises (size : Z) (e : exn) :
  ask_getsize fs log path = Returned size →
  (size <= max_bytes)%Z →
  ask_content fs log1 path = Raised e →
  read_text_safely path max_bytes fs log
  = (Returned (None, Some note_binary), log2).
Proof.
  intros H Hle Hc.
  unfold read_text_safely, looks_binary, try_except, bind, os_path_getsize,
    open_rb_read.
  rewrite H. replace (size >? max_bytes)%Z with false.
  2:{ symmetry. rewrite Z.gtb_ltb. apply Z.ltb_ge. lia. }
  rewrite Hc. reflexivity.
Qed.

Lemma load_sniff_null (size : Z) (content : list Byte.byte) :
  ask_getsize fs log path = Returned size →
  (size <= max_bytes)%Z →
  ask_content fs log1 path = Returned content →
  has_null (firstn 2048 content) = true →
  read_text_safely path max_bytes fs log
  = (Returned (None, Some note_binary), log2).
Proof.
  intros H Hle Hc Hnull.
  unfold read_text_safely, looks_binary, try_except, bind, os_path_getsize,
    open_rb_read.
  rewrite H. replace (size >? max_bytes)%Z with false.
  2:{ symmetry. rewrite Z.gtb_ltb. apply Z.ltb_ge. lia. }
  rewrite Hc. unfold ret. rewrite Hnull. reflexivity.
Qed.

Lemma load_read_raises (size : Z) (content : list Byte.byte) (e : exn) :
  ask_getsize fs log path = Returned size →
  (size <= max_bytes)%Z →
  ask_content fs log1 path = Returned content →
  has_null (firstn 2048 content) = false →
  ask_content fs log2 path = Raised e →
  read_text_safely path max_bytes fs log
  = (Returned (None, Some (note_error e)), log3).
Proof.
  intros H Hle Hc Hnull Hd.
  unfold read_text_safely, looks_binary, try_except, bind, os_path_getsize,
    open_rb_read.
  rewrite H. replace (size >? max_bytes)%Z with false.
  2:{ symmetry. rewrite Z.gtb_ltb. apply Z.ltb_ge. lia. }
  rewrite Hc. unfold ret. rewrite Hnull.
  rewrite Hd. reflexivity.
Qed.

Lemma load_decodes (size : Z) (content data : list Byte.byte) :
  ask_getsize fs log path = Returned size →
  (size <= max_bytes)%Z →
  ask_content fs log1 path = Returned content →
  has_null (firstn 2048 content) = false →
  ask_content fs log2 path = Returned data →
  read_text_safely path max_bytes fs log
  = (Returned (match decode_utf8 data with
               | Some t => (Some t, None)
               | None => (Some (decode_latin1 data), Some note_latin1)
               end), log3).
Proof.
  intros H Hle Hc Hnull Hd.
  unfold read_text_safely, looks_binary, try_except, bind, os_path_getsize,
    open_rb_read.
  rewrite H. replace (size >? max_bytes)%Z with false.
  2:{ symmetry. rewrite Z.gtb_ltb. apply Z.ltb_ge. lia. }
  rewrite Hc. unfold ret. rewrite Hnull.
  rewrite Hd. destruct (decode_utf8 data); reflexivity.
Qed.

(** The loader returns, whatever the file system answers; its first
    call is [getsize], and it never undoes the log. *)
Lemma load_returns :
  ∃ r calls, read_text_safely path max_bytes fs log
             = (Returned r, (log ++ Getsize path :: calls)%list).
Proof.
  destruct (ask_getsize fs log path) as [size|e] eqn:H.
  2:{ eexists _, []. apply load_getsize_raises. exact H. }
  destruct (Z_le_gt_dec size max_bytes) as [Hle|Hgt].
  2:{ eexists _, []. apply load_too_big; eauto. }
  destruct (ask_content fs log1 path) as [content|e] eqn:Hc.
  2:{ eexists _, [_]. erewrite load_sniff_raises by eauto.
      rewrite <- app_assoc. reflexivity. }
  destruct (has_null (firstn 2048 content)) eqn:Hnull.
  { eexists _, [_]. erewrite load_sniff_null by eauto.
    rewrite <- app_assoc. reflexivity. }
  destruct (ask_content fs log2 path) as [data|e] eqn:Hd.
  - eexists _, [_; _]. erewrite load_decodes by eauto.
    rewrite <- !app_assoc. reflexivity.
  - eexists _, [_; _]. erewrite load_read_raises by eauto.
    rewrite <- !app_assoc. reflexivity.
Qed.
End LoaderFacts.

Lemma has_null_elem_of (chunk : list Byte.byte) :
  Byte.x00 ∈ chunk → has_null chunk = true.
Proof.
  intros H. unfold has_null. apply existsb_exists.
  exists Byte.x00. split; [apply list_elem_of_In; exact H | reflexivity].
Qed.

(** C3, as the code has it: the loader never raises. An error of the size
    check or of the full read becomes the skip note "error reading" with
    the error's text; an error while sniffing for binary content is caught
    inside [looks_binary] and becomes the skip note "binary file"; decoding
    cannot fail, since Latin-1 takes over from UTF-8. *)
Theorem C3_loader_never_raises
    (fs : oracle) (path : string) (max_bytes : Z) (log : list syscall) :
  let run := read_text_safely path max_bytes fs log in
  let log1 := (log ++ [Getsize path])%list in
  let log2 := (log1 ++ [OpenRead path (Some 2048)])%list in
  (∃ r, fst run = Returned r)
  ∧ (∀ e, ask_getsize fs log path = Raised e →
          fst run = Returned (None, Some (note_error e)))
  ∧ (∀ size e,
       ask_getsize fs log path = Returned size → (size <= max_bytes)%Z →
       ask_content fs log1 path = Raised e →
       fst run = Returned (None, Some note_binary))
  ∧ (∀ size content e,
       ask_getsize fs log path = Returned size → (size <= max_bytes)%Z →
       ask_content fs log1 path = Returned content →
       has_null (firstn 2048 content) = false →
       ask_content fs log2 path = Raised e →
       fst run = Returned (None, Some (note_error e)))
  ∧ (∀ size content data,
       ask_getsize fs log path = Returned size → (size <= max_bytes)%Z →
       ask_content fs log1 path = Returned content →
       has_null (firstn 2048 content) = false →
       ask_content fs log2 path = Returned data →
       ∃ t note, fst run = Returned (Some t, note)).
Proof.
  intros run log1 log2. subst run log1 log2. repeat split.
  - destruct (load_returns fs path max_bytes log) as (r & calls & ->). eauto.
  - intros e H. erewrite load_getsize_raises by eauto. reflexivity.
  - intros size e H Hle Hc. erewrite load_sniff_raises by eauto. reflexivity.
  - intros size content e H Hle Hc Hn Hd.
    erewrite load_read_raises by eauto. reflexivity.
  - intros size content data H Hle Hc Hn Hd.
    erewrite load_decodes by eauto. destruct (decode_utf8 data); simpl; eauto.
Qed.

Lemma C3_witness :
  fst (read_text_safely "f" 100 Examples.fs_vanishing [])
  = Returned (None, Some "IGNORED (error reading: [Errno 2] No such file)").
Proof.
  pose proof (C3_loader_never_raises Examples.fs_vanishing "f" 100 []) as H.
  cbv zeta in H. destruct H as (_ & _ & _ & H & _).
  apply (H 4%Z [Byte.x41; Byte.x42; Byte.x43; Byte.x0a]
           (Exception "[Errno 2] No such file"));
    first [reflexivity | lia].
Defined.

(** C3 as stated fails: the file can be stat-ed, opening it for the sniff
    is refused, and the skip note is "binary file", not "error reading". *)
Lemma C3_counterexample :
  ask_content Examples.fs_denied [Getsize "f"] "f"
  = Raised (Exception "[Errno 13] Permission denied")
  ∧ fst (read_text_safely "f" 100 Examples.fs_denied [])
    = Returned (None, Some "IGNORED (binary file)")
  ∧ fst (read_text_safely "f" 100 Examples.fs_denied [])
    ≠ Returned (None, Some (note_error (Exception "[Errno 13] Permission denied"))).
Proof. repeat split. vm_compute. discriminate. Qed.

(** ** Blocks *)




(** C7: a file within the size limit whose first 2048 bytes hold a null
    byte is skipped with the note "binary file", whatever its path; the
    loader stops after the sniff. *)
Theorem C7_null_byte_is_binary
    (fs : oracle) (path : string) (max_bytes size : Z)
    (log : list syscall) (content : list Byte.byte) :
  ask_getsize fs log path = Returned size →
  (size <= max_bytes)%Z →
  ask_content fs (log ++ [Getsize path])%list path = Returned content →
  Byte.x00 ∈ firstn 2048 content →
  read_text_safely path max_bytes fs log
  = (Returned (None, Some "IGNORED (binary file)"),
     (log ++ [Getsize path; OpenRead path (Some 2048)])%list).
Proof.
  intros H Hle Hc Hin.
  erewrite load_sniff_null; eauto using has_null_elem_of.
  cbv zeta. rewrite <- app_assoc. reflexivity.
Qed.

Lemma C7_witness :
  read_text_safely "notes.txt" 100 Examples.fs_null []
  = (Returned (None, Some "IGNORED (binary file)"),
     [Getsize "notes.txt"; OpenRead "notes.txt" (Some 2048)]).
Proof.
  apply (C7_null_byte_is_binary Examples.fs_null "notes.txt" 100 5 []
           [Byte.x41; Byte.x00; Byte.x42; Byte.x43; Byte.x0a]).
  - reflexivity.
  - lia.
  - reflexivity.
  - simpl. right. left.
Defined.

(** C9: a file whose size equals [--max-bytes] is not skipped for its
    size: the loader goes on to the binary sniff (its second call opens
    the file for 2048 bytes), and the result is not the size note. *)
Theorem C9_size_limit_is_exclusive
    (fs : oracle) (path : string) (max_bytes size : Z) (log : list syscall) :
  ask_getsize fs log path = Returned size →
  size = max_bytes →
  ∃ r calls,
    read_text_safely path max_bytes fs log
    = (Returned r,
       (log ++ Getsize path :: OpenRead path (Some 2048) :: calls)%list)
    ∧ r ≠ (None, Some (note_size size max_bytes)).
Proof.
  intros H ->.
  destruct (ask_content fs (log ++ [Getsize path])%list path) as [content|e] eqn:Hc.
  2:{ exists (None, Some note_binary), []. split.
      - erewrite load_sniff_raises by (eauto; lia).
        cbv zeta. rewrite <- app_assoc. reflexivity.
      - unfold note_size. simpl. discriminate. }
  destruct (has_null (firstn 2048 content)) eqn:Hnull.
  { exists (None, Some note_binary), []. split.
    - erewrite load_sniff_null by (eauto; lia).
      cbv zeta. rewrite <- app_assoc. reflexivity.
    - unfold note_size. simpl. discriminate. }
  destruct (ask_content fs ((log ++ [Getsize path]) ++ [OpenRead path (Some 2048)])%list path)
    as [data|e] eqn:Hd.
  - eexists _, [_]. split.
    + erewrite load_decodes by (eauto; lia).
      cbv zeta. rewrite <- !app_assoc. reflexivity.
    + destruct (decode_utf8 data); discriminate.
  - eexists _, [_]. split.
    + erewrite load_read_raises by (eauto; lia).
      cbv zeta. rewrite <- !app_assoc. reflexivity.
    + unfold note_size, note_error. simpl. discriminate.
Qed.

Lemma C9_witness :
  ∃ r calls,
    read_text_safely "a.txt" 4 Examples.fs_text []
    = (Returned r,
       ([] ++ Getsize "a.txt" :: OpenRead "a.txt" (Some 2048) :: calls)%list)
    ∧ r ≠ (None, Some (note_size 4 4)).
Proof.
  apply (C9_size_limit_is_exclusive Examples.fs_text "a.txt" 4 4 []); reflexivity.
Defined.

(** The loader on the example file systems. *)
Example load_examples :
  read_text_safely "a.txt" 4 Examples.fs_text []
  = (Returned (Some [65; 233; 10]%N, None),
     [Getsize "a.txt"; OpenRead "a.txt" (Some 2048); OpenRead "a.txt" None])
  ∧ read_text_safely "a.txt" 3 Examples.fs_text []
    = (Returned (None, Some "IGNORED (size 4 > 3 bytes)"), [Getsize "a.txt"])
  ∧ read_text_safely "gone" 4 Examples.fs_text []
    = (Returned (None, Some "IGNORED (error reading: [Errno 2] No such file)"),
       [Getsize "gone"]).
Proof. repeat split. Qed.

(** ** One block per candidate *)
















(** A run over the example project: six candidates, six blocks, all
    written. *)
Example main_example :
  match main {| arg_max_bytes := 100; arg_include := ""; arg_exclude_dirs := "";
                arg_toc := true |}
             "/proj" "/out/local.txt" "2024-01-01T00:00:00"
             (Some Examples.tree_git) Examples.sink_ok Examples.fs_text [] with
  | (Returned (Exported _ files written stdout), _) =>
      files = ["/proj/Dockerfile"; "/proj/a.py"; "/proj/b.js"; "/proj/.GIT/x.py";
               "/proj/src/m.PY"; "/proj/src/sub/z.md"]
      ∧ written = 6
      ∧ stdout = ["Export complete: /out/local.txt";
                  "Files successfully written: 6/6"]
  | _ => False
  end.
Proof. vm_compute. repeat split. Qed.

(** ** The wrapper *)

Lemma split_concat (s : text) : concat (TextWrapper.split s) = s.
Proof.
  induction s as [|c s IH]; [reflexivity|].
  cbn [TextWrapper.split].
  destruct (TextWrapper.split s) as [|[|d chunk] rest]; simpl in *.
  - rewrite <- IH. reflexivity.
  - rewrite <- IH. reflexivity.
  - destruct (Bool.eqb _ _); simpl; rewrite <- IH; reflexivity.
Qed.

Lemma split_nonempty (s : text) : Forall (fun chunk => chunk ≠ []) (TextWrapper.split s).
Proof.
  induction s as [|c s IH]; [constructor|].
  cbn [TextWrapper.split].
  destruct (TextWrapper.split s) as [|[|d chunk] rest].
  - repeat constructor. discriminate.
  - inversion IH; subst. constructor; [discriminate | assumption].
  - inversion IH; subst.
    destruct (Bool.eqb _ _); repeat constructor; try discriminate; assumption.
Qed.

Lemma expandtabs_no_tab (tabsize : nat) (s : text) :
  9%N ∉ s → PyText.expandtabs tabsize s = s.
Proof.
  unfold PyText.expandtabs. generalize 0 as col.
  induction s as [|c s IH]; intros col Hs; [reflexivity|].
  cbn [PyText.expandtabs_from].
  apply not_elem_of_cons in Hs as [Hc Hs].
  destruct (N.eqb_spec c 9) as [->|_]; [contradiction|].
  f_equal. apply IH. exact Hs.
Qed.

Section WrapFacts.
Local Open Scope nat_scope.
Local Open Scope list_scope.
Variable width : nat.
Hypothesis width_pos : 1 ≤ width.

Lemma fill_line_spec (chunks : list text) :
  ∀ (cur_line : list text) (cur_len : nat),
    cur_len ≤ width →
    ∃ taken rest len,
      TextWrapper.fill_line width chunks cur_line cur_len
      = ((cur_line ++ taken)%list, len, rest)
      ∧ chunks = (taken ++ rest)%list
      ∧ len = cur_len + length (concat taken)
      ∧ len ≤ width.
Proof.
  induction chunks as [|chunk chunks IH]; intros cur_line cur_len Hlen.
  - exists [], [], cur_len. simpl. rewrite app_nil_r. repeat split; lia.
  - cbn [TextWrapper.fill_line].
    destruct (Nat.leb_spec (cur_len + length chunk) width) as [Hfit|Hbig].
    + destruct (IH (cur_line ++ [chunk])%list (cur_len + length chunk) Hfit)
        as (taken & rest & len & Hfill & -> & -> & Hle).
      exists (chunk :: taken), rest, (cur_len + length chunk + length (concat taken)).
      rewrite Hfill. rewrite <- app_assoc. simpl. rewrite length_app.
      repeat split; lia.
    + exists [], (chunk :: chunks), cur_len. rewrite app_nil_r. simpl.
      repeat split; lia.
Qed.

(** A round takes a non-empty prefix of the characters and leaves
    well-formed chunks. *)
Lemma next_line_spec (chunk : text) (chunks : list text) :
  Forall (fun c => c ≠ []) (chunk :: chunks) →
  ∃ cur_line rest,
    TextWrapper.next_line width (chunk :: chunks) = (cur_line, rest)
    ∧ (concat cur_line ++ concat rest)%list = concat (chunk :: chunks)
    ∧ Forall (fun c => c ≠ []) rest
    ∧ length (concat rest) < length (concat (chunk :: chunks)).
Proof.
  intros Hne. unfold TextWrapper.next_line.
  destruct (fill_line_spec (chunk :: chunks) [] 0 ltac:(lia))
    as (taken & rest & len & Hfill & Hsplit & Hlen & Hle).
  rewrite Hfill. simpl app.
  assert (Hrest : Forall (fun c => c ≠ []) rest).
  { rewrite Hsplit in Hne. apply Forall_app in Hne. tauto. }
  assert (Hcat : concat (chunk :: chunks) = (concat taken ++ concat rest)%list).
  { rewrite Hsplit. apply concat_app. }
  assert (Hprogress : taken = [] →
            rest = chunk :: chunks ∧ width < length chunk).
  { intros ->. simpl in Hsplit. subst rest. split; [reflexivity|].
    cbn [TextWrapper.fill_line] in Hfill.
    destruct (Nat.leb_spec (0 + length chunk) width) as [Hfit|Hbig].
    - destruct (fill_line_spec chunks ([] ++ [chunk]) (0 + length chunk) Hfit)
        as (taken' & rest' & len' & Hfill' & _).
      rewrite Hfill' in Hfill. discriminate.
    - simpl in Hbig. lia. }
  assert (Htaken : taken ≠ [] → 0 < length (concat taken)).
  { destruct taken as [|t taken]; [congruence|]. intros _.
    rewrite Hsplit in Hne. inversion Hne as [|? ? Ht _]; subst.
    injection Hsplit as -> _.
    simpl. rewrite length_app. destruct t; [congruence|simpl; lia]. }
  destruct rest as [|big rest'].
  - exists taken, []. split; [reflexivity|]. rewrite Hcat.
    repeat split; [constructor|]. simpl. rewrite app_nil_r.
    destruct taken; [destruct (Hprogress eq_refl); discriminate|].
    specialize (Htaken ltac:(discriminate)). simpl in *. lia.
  - destruct (Nat.ltb_spec width (length big)) as [Hlong|Hshort].
    + unfold TextWrapper.handle_long_word.
      replace (width <? 1) with false by (symmetry; apply Nat.ltb_ge; lia).
      exists (taken ++ [take (width - len) big])%list,
             (drop (width - len) big :: rest').
      split; [reflexivity|]. rewrite Hcat. split; [|split].
      * rewrite concat_app. simpl. rewrite app_nil_r.
        rewrite <- !app_assoc. rewrite (app_assoc (take _ _)).
        rewrite take_drop. reflexivity.
      * inversion Hrest; subst. constructor; [|assumption].
        intros Hdrop. apply (f_equal length) in Hdrop.
        rewrite length_drop in Hdrop. simpl in Hdrop. lia.
      * simpl. rewrite !length_app, length_drop.
        destruct taken as [|t taken'].
        -- destruct (Hprogress eq_refl) as [_ Hw]. simpl in *. lia.
        -- specialize (Htaken ltac:(discriminate)). lia.
    + exists taken, (big :: rest'). split; [reflexivity|]. rewrite Hcat.
      split; [reflexivity|]. split; [assumption|].
      destruct taken as [|t taken'].
      * destruct (Hprogress eq_refl) as [Heq Hw]. injection Heq as -> _. lia.
      * specialize (Htaken ltac:(discriminate)). rewrite length_app. lia.
Qed.

Lemma wrap_chunks_loop_step (fuel : nat) (chunk : text) (chunks lines : list text) :
  TextWrapper.wrap_chunks_loop width (S fuel) (chunk :: chunks) lines
  = TextWrapper.wrap_chunks_loop width fuel
      (snd (TextWrapper.next_line width (chunk :: chunks)))
      (match fst (TextWrapper.next_line width (chunk :: chunks)) with
       | [] => lines
       | _ :: _ => lines ++ [concat (fst (TextWrapper.next_line width (chunk :: chunks)))]
       end).
Proof.
  cbn [TextWrapper.wrap_chunks_loop].
  destruct (TextWrapper.next_line width (chunk :: chunks)). reflexivity.
Qed.

(** As many rounds as there are characters are enough, and the lines
    laid out are the chunks, cut differently. *)
Lemma wrap_chunks_loop_enough (fuel : nat) :
  ∀ chunks lines,
    Forall (fun c => c ≠ []) chunks →
    length (concat chunks) ≤ fuel →
    ∃ out,
      TextWrapper.wrap_chunks_loop width fuel chunks lines = Some out
      ∧ concat out = (concat lines ++ concat chunks)%list.
Proof.
  induction fuel as [|fuel IH]; intros chunks lines Hne Hfuel.
  - destruct chunks as [|chunk chunks].
    + exists lines. simpl. rewrite app_nil_r. auto.
    + inversion Hne; subst. simpl in Hfuel. rewrite length_app in Hfuel.
      destruct chunk; [congruence | simpl in Hfuel; lia].
  - destruct chunks as [|chunk chunks].
    + exists lines. simpl. rewrite app_nil_r. auto.
    + destruct (next_line_spec chunk chunks Hne)
        as (cur_line & rest & Hnext & Hcat & Hrest & Hless).
      rewrite wrap_chunks_loop_step, Hnext. cbn [fst snd].
      assert (Hfuel' : length (concat rest) <= fuel). { lia. }
      destruct (IH rest
                  (match cur_line with
                   | [] => lines
                   | _ :: _ => (lines ++ [concat cur_line])%list
                   end) Hrest Hfuel') as (out & Hout & Hconcat).
      exists out. split; [exact Hout|]. rewrite Hconcat. rewrite <- Hcat.
      destruct cur_line as [|c cur_line]; [reflexivity|].
      rewrite concat_app. simpl concat at 2. rewrite app_nil_r.
      rewrite <- app_assoc. reflexivity.
Qed.

(** [wrap] returns, and its lines put together are the source line with
    its tabs expanded. *)
Lemma wrap_opt_total (raw : text) :
  ∃ lines,
    TextWrapper.wrap_opt width raw = Some lines
    ∧ concat lines = PyText.expandtabs 8 raw.
Proof.
  unfold TextWrapper.wrap_opt, TextWrapper.wrap_chunks, TextWrapper.munge_whitespace.
  destruct (wrap_chunks_loop_enough
              (length (concat (TextWrapper.split (PyText.expandtabs 8 raw))))
              (TextWrapper.split (PyText.expandtabs 8 raw)) []
              (split_nonempty _) ltac:(lia)) as (out & Hout & Hconcat).
  exists out. split; [exact Hout|]. rewrite Hconcat. simpl. apply split_concat.
Qed.

Lemma wrap_concat (raw : text) :
  concat (TextWrapper.wrap width raw) = PyText.expandtabs 8 raw.
Proof.
  unfold TextWrapper.wrap.
  destruct (wrap_opt_total raw) as (lines & -> & Hc). exact Hc.
Qed.

(** A source line without a TAB comes back unchanged. *)
Lemma wrap_reconstructs_untabbed (raw : text) :
  9%N ∉ raw → concat (TextWrapper.wrap width raw) = raw.
Proof. intros H. rewrite wrap_concat. apply expandtabs_no_tab. exact H. Qed.
End WrapFacts.

(** An empty source line gives no wrapped line, and one empty output line. *)
Lemma empty_line_written (out : text) :
  TextWrapper.wrap 500 [] = []
  ∧ write_body out (widen nl) = (out ++ widen nl)%list.
Proof. split; reflexivity. Qed.

(** C4 at a line holding a TAB: the wrapper is built without
    [expand_tabs=False], so the one wrapped line of TAB [x] is eight spaces
    and [x]; putting the wrapped lines together does not give the source
    line back, and the document gets the spaces. *)
Theorem C4_tab_line_not_reconstructed :
  TextWrapper.wrap 500 Examples.tab_line = [[32; 32; 32; 32; 32; 32; 32; 32; 120]%N]
  ∧ concat (TextWrapper.wrap 500 Examples.tab_line) ≠ Examples.tab_line
  ∧ write_body [] Examples.tab_file = [32; 32; 32; 32; 32; 32; 32; 32; 120; 10]%N.
Proof.
  split; [|split].
  - vm_compute. reflexivity.
  - vm_compute. discriminate.
  - vm_compute. reflexivity.
Qed.

(** * Further properties of the code *)

(** ** File names and extensions *)

Lemma lower_char_dot (c : ascii) : Ascii.eqb (PyStr.lower_char c) "." = Ascii.eqb c ".".
Proof. destruct c as [[] [] [] [] [] [] [] []]; vm_compute; reflexivity. Qed.

Lemma lower_char_idem (c : ascii) :
  PyStr.lower_char (PyStr.lower_char c) = PyStr.lower_char c.
Proof. destruct c as [[] [] [] [] [] [] [] []]; vm_compute; reflexivity. Qed.

Lemma lower_idem (s : string) : PyStr.lower (PyStr.lower s) = PyStr.lower s.
Proof.
  induction s as [|c s IH]; [reflexivity|].
  cbn [PyStr.lower]. rewrite lower_char_idem, IH. reflexivity.
Qed.

Lemma rcut_none (sep : ascii) (s : string) :
  PyStr.rcut sep s = None ↔ PyStr.contains sep s = false.
Proof.
  induction s as [|c s IH]; [tauto|].
  cbn [PyStr.rcut PyStr.contains].
  destruct (PyStr.rcut sep s) as [[before after]|].
  - split; [discriminate|]. intros H. apply orb_false_iff in H as [_ H].
    apply IH in H. discriminate.
  - destruct (Ascii.eqb c sep); simpl; [split; discriminate|].
    split; intros _; [apply IH|]; reflexivity.
Qed.

(** [rsplit(sep, 1)] cuts at the last separator: what follows has none. *)
Lemma rcut_spec (sep : ascii) (s before after : string) :
  PyStr.rcut sep s = Some (before, after) ↔
  s = before ++ String sep after ∧ PyStr.contains sep after = false.
Proof.
  revert before. induction s as [|c s IH]; intros before.
  - split; [discriminate|]. intros [H _]. destruct before; discriminate.
  - cbn [PyStr.rcut].
    destruct (PyStr.rcut sep s) as [[b a]|] eqn:Hcut.
    + split.
      * intros [= <- <-]. destruct (proj1 (IH b) eq_refl) as [-> Hno].
        rewrite app_String. auto.
      * intros [H Hno]. destruct before as [|x before].
        -- injection H as -> ->. apply rcut_none in Hno. congruence.
        -- rewrite app_String in H. injection H as -> ->.
           assert (Some (b, a) = Some (before, after)) as [= -> ->]; [|reflexivity].
           apply IH. auto.
    + apply rcut_none in Hcut.
      destruct (Ascii.eqb_spec c sep) as [->|Hne].
      * split.
        -- intros [= <- <-]. auto.
        -- intros [H Hno]. destruct before as [|x before].
           ++ injection H as ->. reflexivity.
           ++ rewrite app_String in H. injection H as -> ->.
              rewrite contains_app in Hcut. cbn [PyStr.contains] in Hcut.
              rewrite Ascii.eqb_refl in Hcut. rewrite orb_true_r in Hcut.
              discriminate.
      * split; [discriminate|]. intros [H Hno].
        destruct before as [|x before].
        -- injection H as -> _. contradiction.
        -- rewrite app_String in H. injection H as -> ->.
           rewrite contains_app in Hcut. cbn [PyStr.contains] in Hcut.
           rewrite Ascii.eqb_refl in Hcut. rewrite orb_true_r in Hcut.
           discriminate.
Qed.

Lemma should_include_iff (filename : string) (include_exts : gset string) :
  should_include filename include_exts = true ↔
  PyStr.lower filename ∈ SPECIAL_FILENAMES
  ∨ ∃ stem ext, PyStr.lower filename = stem ++ "." ++ ext
                ∧ PyStr.contains "." ext = false
                ∧ ext ∈ include_exts.
Proof.
  unfold should_include.
  destruct (bool_decide_reflect (PyStr.lower filename ∈ SPECIAL_FILENAMES)) as [Hs|Hs].
  { split; auto. }
  destruct (PyStr.contains "." (PyStr.lower filename)) eqn:Hdot.
  - unfold PyStr.rsplit1.
    destruct (PyStr.rcut "." (PyStr.lower filename)) as [[a' b']|] eqn:Hcut.
    2:{ apply rcut_none in Hcut. congruence. }
    cbn [PyStr.last_item List.last].
    rewrite bool_decide_eq_true. split.
    + intros Hin. right. exists a', b'.
      apply rcut_spec in Hcut as [Hlow Hno]. auto.
    + intros [Hspecial|(stem & ext & Heq & Hext & Hin)]; [contradiction|].
      assert (PyStr.rcut "." (PyStr.lower filename) = Some (stem, ext)) as Hc.
      { apply rcut_spec. auto. }
      rewrite Hcut in Hc. injection Hc as _ ->. exact Hin.
  - split; [discriminate|].
    intros [Hspecial|(stem & ext & Heq & _ & _)]; [contradiction|].
    rewrite Heq, contains_app in Hdot.
    cbn in Hdot. rewrite orb_true_r in Hdot. discriminate.
Qed.

(** X1. What [should_include] accepts, read off the lower-cased name: that
    name is a special name, or it has the form [stem.ext] where [ext] has
    no dot (so the cut is at the last dot) and is in the include set.
    Nothing else: a name without a dot that is not special is refused
    whatever the set. *)
Theorem should_include_spec (filename : string) (include_exts : gset string) :
  should_include filename include_exts = true ↔
  PyStr.lower filename ∈ SPECIAL_FILENAMES
  ∨ ∃ stem ext, PyStr.lower filename = stem ++ "." ++ ext
                ∧ PyStr.contains "." ext = false
                ∧ ext ∈ include_exts.
Proof. apply should_include_iff. Qed.

(** ** Configuration resolution, continued *)

(** X2. The built-in excluded directories stay excluded whatever
    [--exclude-dirs] holds: the option can add names, never remove one. *)
Theorem default_excludes_stay (exclude_dirs_arg : string) :
  DEFAULT_EXCLUDE_DIRS ⊆ resolve_exclude exclude_dirs_arg.
Proof.
  unfold resolve_exclude.
  destruct (negb (String.eqb (PyStr.strip exclude_dirs_arg) "")).
  - apply union_subseteq_l.
  - reflexivity.
Qed.

Lemma lstrip_dot_lower (s : string) :
  PyStr.lower (PyStr.lstrip_dot s) = PyStr.lstrip_dot (PyStr.lower s).
Proof.
  unfold PyStr.lstrip_dot. induction s as [|c s IH]; [reflexivity|].
  cbn [PyStr.lstrip_by PyStr.lower].
  rewrite (Ascii.eqb_sym "." (PyStr.lower_char c)), lower_char_dot.
  rewrite (Ascii.eqb_sym c "."). destruct (Ascii.eqb "." c); [exact IH | reflexivity].
Qed.

Lemma lstrip_dot_no_leading_dot (s : string) :
  ∀ rest, PyStr.lstrip_dot s ≠ String "." rest.
Proof.
  unfold PyStr.lstrip_dot. induction s as [|c s IH]; intros rest; [discriminate|].
  cbn [PyStr.lstrip_by]. destruct (Ascii.eqb_spec "." c) as [<-|Hne]; [apply IH|].
  intros [= -> _]. contradiction.
Qed.

(** X3. Every extension of a user-given include set is in lower case and
    does not begin with a dot, which is the form [should_include] compares
    file extensions in. *)
Theorem include_tokens_normalised (include e : string) :
  PyStr.strip include ≠ "" →
  e ∈ resolve_include include →
  PyStr.lower e = e ∧ ∀ rest, e ≠ String "." rest.
Proof.
  intros Hne He. rewrite resolve_include_given in He by assumption.
  apply elem_of_include_tokens in He as (tok & _ & _ & ->). split.
  - rewrite lstrip_dot_lower, lower_idem. reflexivity.
  - apply lstrip_dot_no_leading_dot.
Qed.

Lemma include_tokens_normalised_witness :
  PyStr.lower "py" = "py" ∧ ∀ rest, "py" ≠ String "." rest.
Proof.
  apply (include_tokens_normalised " .PY,md" "py").
  - vm_compute. discriminate.
  - vm_compute. reflexivity.
Defined.

(** X4. With an [--include] that is not blank, a file is a candidate as
    soon as some token that is not blank, once stripped, lower-cased and
    freed of leading dots, is what follows the last dot of the file's
    lower-cased name. *)
Theorem include_token_matches (include tok filename stem ext : string) :
  PyStr.strip include ≠ "" →
  tok ∈ PyStr.split "," include →
  PyStr.strip tok ≠ "" →
  PyStr.lower filename = stem ++ "." ++ ext →
  PyStr.contains "." ext = false →
  PyStr.lstrip_dot (PyStr.lower (PyStr.strip tok)) = ext →
  should_include filename (resolve_include include) = true.
Proof.
  intros Hne Htok Hstrip Hname Hext Hmatch. apply should_include_iff. right.
  exists stem, ext. split; [exact Hname|]. split; [exact Hext|].
  rewrite resolve_include_given by assumption.
  apply elem_of_include_tokens. exists tok. auto.
Qed.

Lemma include_token_matches_witness :
  should_include "Main.Py" (resolve_include "md, .PY") = true.
Proof.
  apply (include_token_matches "md, .PY" " .PY" "Main.Py" "main" "py").
  - vm_compute. discriminate.
  - vm_compute. right. left.
  - vm_compute. discriminate.
  - reflexivity.
  - reflexivity.
  - reflexivity.
Defined.

(** ** The walk, continued *)

Lemma flat_map_ext_elem {A B : Type} (f g : A → list B) (l : list A) :
  (∀ x, x ∈ l → f x = g x) → flat_map f l = flat_map g l.
Proof.
  induction l as [|x l IH]; intros H; [reflexivity|].
  simpl. rewrite (H x) by left. rewrite IH; [reflexivity|].
  intros y Hy. apply H. right. exact Hy.
Qed.

Lemma lookup_name_other {A : Type} (d d0 : string) (x y : A)
    (l1 l2 : list (string * A)) :
  d0 ≠ d →
  lookup_name d0 (l1 ++ (d, x) :: l2) = lookup_name d0 (l1 ++ (d, y) :: l2).
Proof.
  intros Hne. induction l1 as [|[n a] l1 IH]; simpl.
  - destruct (String.eqb_spec d d0) as [->|_]; [contradiction | reflexivity].
  - destruct (String.eqb n d0); [reflexivity | exact IH].
Qed.

(** X5. An excluded directory is never entered: replacing everything below
    it changes nothing in the result. *)
Theorem excluded_dir_not_visited (include_exts exclude_dirs : gset string)
    (before after sub sub' : list (string * node)) (d dirpath : string) :
  d ∈ exclude_dirs →
  walk include_exts exclude_dirs (Dir (before ++ (d, Dir sub) :: after)) dirpath
  = walk include_exts exclude_dirs (Dir (before ++ (d, Dir sub') :: after)) dirpath.
Proof.
  intros Hd. rewrite !walk_dir. rewrite !List.filter_app. cbn [List.filter snd is_dir negb].
  rewrite !map_app. cbn [map fst]. f_equal.
  apply flat_map_ext_elem. intros d0 Hd0.
  apply elem_of_prune in Hd0 as [Hd0 _].
  assert (d0 ≠ d) as Hne by congruence.
  rewrite (lookup_name_other d d0
             (walk include_exts exclude_dirs (Dir sub))
             (walk include_exts exclude_dirs (Dir sub')) _ _ Hne).
  reflexivity.
Qed.

Lemma excluded_dir_not_visited_witness :
  walk (resolve_include "") (resolve_exclude "custom")
    (Dir ([("a.py", File)] ++ ("node_modules", Dir [("x.js", File)]) :: [])) "/proj"
  = walk (resolve_include "") (resolve_exclude "custom")
      (Dir ([("a.py", File)] ++ ("node_modules", Dir []) :: [])) "/proj".
Proof.
  apply (excluded_dir_not_visited (resolve_include "") (resolve_exclude "custom")
           [("a.py", File)] [] [("x.js", File)] [] "node_modules" "/proj").
  vm_compute. reflexivity.
Defined.

(** *** [sorted] sorts *)

Lemma insert_sorted_perm (x : string) (l : list string) :
  insert_sorted x l ≡ₚ x :: l.
Proof.
  induction l as [|y l IH]; simpl; [reflexivity|].
  destruct (String.leb x y); [reflexivity|].
  rewrite IH. apply perm_swap.
Qed.

Lemma sorted_perm (l : list string) : sorted l ≡ₚ l.
Proof.
  induction l as [|x l IH]; simpl; [reflexivity|].
  rewrite insert_sorted_perm, IH. reflexivity.
Qed.

Lemma insert_sorted_Sorted (x : string) (l : list string) :
  Sorted String.le l → Sorted String.le (insert_sorted x l).
Proof.
  induction 1 as [|y l Hl IH Hhd]; simpl.
  - repeat constructor.
  - destruct (String.leb x y) eqn:Hxy.
    + constructor; [constructor; assumption|].
      constructor. unfold String.le. rewrite Hxy. exact I.
    + constructor; [exact IH|].
      assert (String.le y x) as Hyx.
      { destruct (String.leb_total x y) as [H|H]; [congruence|].
        unfold String.le. rewrite H. exact I. }
      destruct Hhd as [|z l Hyz]; simpl.
      * constructor. exact Hyx.
      * destruct (String.leb x z); constructor; assumption.
Qed.

Lemma sorted_Sorted (l : list string) : Sorted String.le (sorted l).
Proof.
  induction l as [|x l IH]; simpl; [constructor|].
  apply insert_sorted_Sorted. exact IH.
Qed.

Lemma sorted_perm_eq (l1 l2 : list string) : l1 ≡ₚ l2 → sorted l1 = sorted l2.
Proof.
  intros H. apply (Sorted_unique String.le); try apply sorted_Sorted.
  rewrite !sorted_perm. exact H.
Qed.

Lemma list_filter_perm {A : Type} (p : A → bool) (l1 l2 : list A) :
  l1 ≡ₚ l2 → List.filter p l1 ≡ₚ List.filter p l2.
Proof.
  induction 1 as [|x l1 l2 _ IH|x y l|l1 l2 l3 _ IH1 _ IH2]; simpl.
  - reflexivity.
  - destruct (p x); [constructor|]; exact IH.
  - destruct (p x), (p y); try reflexivity. apply perm_swap.
  - etransitivity; eassumption.
Qed.

Lemma lookup_name_perm {A : Type} (d : string) (l1 l2 : list (string * A)) :
  NoDup (map fst l1) → l1 ≡ₚ l2 → lookup_name d l1 = lookup_name d l2.
Proof.
  intros Hnd Hp. induction Hp as [|[n a] l1 l2 Hp IH|[n a] [m b] l|l1 l2 l3 Hp1 IH1 Hp2 IH2].
  - reflexivity.
  - simpl in *. apply NoDup_cons in Hnd as [_ Hnd].
    destruct (String.eqb n d); [reflexivity | auto].
  - simpl in *. apply NoDup_cons in Hnd as [Hnm _].
    destruct (String.eqb_spec m d) as [->|_], (String.eqb_spec n d) as [->|_];
      try reflexivity.
    exfalso. apply Hnm. left.
  - rewrite IH1 by assumption. apply IH2.
    assert (map fst l1 ≡ₚ map fst l2) as Hm by (apply Permutation_map; exact Hp1).
    rewrite <- Hm. exact Hnd.
Qed.

(** X6. The order in which the operating system lists the entries of a
    directory does not show in the result: both name lists are sorted
    before use. *)
Theorem listing_order_irrelevant (include_exts exclude_dirs : gset string)
    (entries entries' : list (string * node)) (dirpath : string) :
  NoDup (map fst entries) →
  entries ≡ₚ entries' →
  walk include_exts exclude_dirs (Dir entries) dirpath
  = walk include_exts exclude_dirs (Dir entries') dirpath.
Proof.
  intros Hnd Hp. rewrite !walk_dir. f_equal.
  - unfold files_here. do 2 f_equal. apply sorted_perm_eq.
    apply Permutation_map, list_filter_perm. exact Hp.
  - unfold prune.
    rewrite (sorted_perm_eq _ (map fst (List.filter (fun e => is_dir (snd e)) entries'))).
    2:{ apply Permutation_map, list_filter_perm. exact Hp. }
    apply flat_map_ext_elem. intros d _.
    rewrite (lookup_name_perm d _
               (map (fun e => (fst e, walk include_exts exclude_dirs (snd e))) entries'));
      [reflexivity| |].
    + rewrite map_map. simpl. exact Hnd.
    + apply Permutation_map. exact Hp.
Qed.

Lemma listing_order_irrelevant_witness :
  walk (resolve_include "") (resolve_exclude "")
    (Dir [("b.txt", File); ("a.txt", File); ("src", Dir [("m.py", File)])]) "/proj"
  = walk (resolve_include "") (resolve_exclude "")
      (Dir [("a.txt", File); ("b.txt", File); ("src", Dir [("m.py", File)])]) "/proj".
Proof.
  apply (listing_order_irrelevant (resolve_include "") (resolve_exclude "")
           [("b.txt", File); ("a.txt", File); ("src", Dir [("m.py", File)])]
           [("a.txt", File); ("b.txt", File); ("src", Dir [("m.py", File)])] "/proj").
  - apply (bool_decide_unpack _). vm_compute. exact I.
  - apply perm_swap.
Defined.

(** ** Paths *)

Lemma path_parts_app_slash (a b : string) :
  path_parts (a ++ String "/" b) = (path_parts a ++ path_parts b)%list.
Proof. unfold path_parts. rewrite split_app_sep. apply filter_app. Qed.

Lemma path_parts_entry_name (name : string) :
  is_entry_name name = true → path_parts name = [name].
Proof.
  unfold is_entry_name. intros H.
  apply andb_true_iff in H as [H Hslash].
  apply andb_true_iff in H as [H _]. apply andb_true_iff in H as [Hne _].
  apply negb_true_iff in Hslash, Hne. apply String.eqb_neq in Hne.
  unfold path_parts. rewrite (split_no_sep _ _ Hslash).
  rewrite filter_cons_True by exact Hne. reflexivity.
Qed.

Lemma ends_with_slash_inv (a : string) :
  ends_with_slash a = true → ∃ a', a = a' ++ String "/" "".
Proof.
  induction a as [|c a IH]; [discriminate|].
  destruct a as [|d a].
  - cbn. intros H. apply Ascii.eqb_eq in H as ->. exists "". reflexivity.
  - intros H. change (ends_with_slash (String d a) = true) in H.
    destruct (IH H) as (a' & ->). exists (String c a'). reflexivity.
Qed.

Lemma path_parts_join (a name : string) :
  is_entry_name name = true →
  path_parts (os_path_join a name) = (path_parts a ++ [name])%list.
Proof.
  intros Hname. pose proof (path_parts_entry_name name Hname) as Hparts.
  unfold os_path_join.
  assert (starts_with_slash name = false) as ->.
  { unfold is_entry_name in Hname. apply andb_true_iff in Hname as [_ H].
    apply negb_true_iff in H. destruct name as [|c name]; [reflexivity|].
    cbn [PyStr.contains] in H. apply orb_false_iff in H as [H _]. exact H. }
  destruct (String.eqb_spec a "") as [->|Hne]; simpl orb; cbv iota.
  - exact Hparts.
  - destruct (ends_with_slash a) eqn:Hends.
    + destruct (ends_with_slash_inv a Hends) as (a' & ->).
      rewrite string_app_assoc. change (String "/" "" ++ name) with (String "/" name).
      rewrite !path_parts_app_slash, Hparts.
      change (path_parts "") with (@nil string). rewrite app_nil_r. reflexivity.
    + change (a ++ "/" ++ name) with (a ++ String "/" name).
      rewrite path_parts_app_slash, Hparts. reflexivity.
Qed.

Lemma path_parts_joined (names : list string) :
  ∀ root,
    Forall (fun n => is_entry_name n = true) names →
    path_parts (fold_left os_path_join names root) = (path_parts root ++ names)%list.
Proof.
  induction names as [|n names IH]; intros root Hn; simpl.
  - rewrite app_nil_r. reflexivity.
  - inversion Hn; subst. rewrite IH by assumption.
    rewrite path_parts_join by assumption. rewrite <- app_assoc. reflexivity.
Qed.

Lemma common_prefix_len_app (l r : list string) :
  common_prefix_len l (l ++ r) = length l.
Proof.
  induction l as [|x l IH]; simpl; [destruct r; reflexivity|].
  rewrite String.eqb_refl, IH. reflexivity.
Qed.

Lemma relpath_joined_names (root : string) (names : list string) :
  Forall (fun n => is_entry_name n = true) names →
  os_path_relpath (fold_left os_path_join names root) root
  = match names with
    | [] => "."
    | n :: ns => fold_left os_path_join ns n
    end.
Proof.
  intros Hn. unfold os_path_relpath.
  rewrite path_parts_joined by assumption.
  rewrite common_prefix_len_app, Nat.sub_diag. cbn [repeat app].
  rewrite drop_app_length. reflexivity.
Qed.

(** X7. [relpath] undoes [join]: going down from an absolute [root]
    through entry names and asking for the path relative to [root] gives
    those names joined, and [.] when there is none; the result never climbs
    with [..]. *)
Theorem relpath_of_joined (root : string) (names : list string) :
  starts_with_slash root = true →
  Forall (fun n => is_entry_name n = true) names →
  os_path_relpath (fold_left os_path_join names root) root
  = match names with
    | [] => "."
    | n :: ns => fold_left os_path_join ns n
    end.
Proof. intros _. apply relpath_joined_names. Qed.

Lemma relpath_of_joined_witness :
  os_path_relpath (fold_left os_path_join ["src"; "a.py"] "/home/me/proj") "/home/me/proj"
  = fold_left os_path_join ["a.py"] "src".
Proof.
  apply (relpath_of_joined "/home/me/proj" ["src"; "a.py"]).
  - reflexivity.
  - repeat constructor.
Defined.

Lemma walk_paths (include_exts exclude_dirs : gset string) (t : node) :
  entry_names_ok t = true →
  ∀ dirpath p,
    p ∈ walk include_exts exclude_dirs t dirpath →
    ∃ n ns, Forall (fun x => is_entry_name x = true) (n :: ns)
            ∧ p = fold_left os_path_join (n :: ns) dirpath.
Proof.
  induction t as [|entries IH] using node_induction; intros Hok dirpath p Hp.
  - simpl in Hp. apply elem_of_nil in Hp. contradiction.
  - cbn [entry_names_ok] in Hok. rewrite forallb_forall in Hok.
    rewrite walk_dir in Hp. apply elem_of_app in Hp as [Hp|Hp].
    + unfold files_here in Hp. apply list_elem_of_In, in_map_iff in Hp.
      destruct Hp as (fname & <- & Hin). apply filter_In in Hin as [Hin _].
      apply list_elem_of_In, elem_of_sorted, list_elem_of_In, in_map_iff in Hin.
      destruct Hin as (e & <- & He). apply filter_In in He as [He _].
      apply Hok in He. apply andb_true_iff in He as [He _].
      exists (fst e), []. split; [repeat constructor; exact He | reflexivity].
    + apply list_elem_of_In, in_flat_map in Hp. destruct Hp as (d & Hd & Hp).
      rewrite lookup_name_map in Hp.
      destruct (lookup_name d entries) as [t|] eqn:Hl; simpl in Hp; [|contradiction].
      assert (He : (d, t) ∈ entries).
      { clear -Hl. induction entries as [|[n t'] es IHes]; simpl in Hl; [discriminate|].
        destruct (String.eqb_spec n d) as [->|_].
        - injection Hl as ->. left.
        - right. auto. }
      apply list_elem_of_In in He.
      pose proof (Hok _ He) as Hde. apply andb_true_iff in Hde as [Hdn Hdt].
      rewrite Forall_forall in IH. apply list_elem_of_In in He.
      destruct (IH _ He Hdt (os_path_join dirpath d) p) as (n & ns & Hns & ->).
      { apply list_elem_of_In. exact Hp. }
      exists d, (n :: ns). split; [constructor; assumption | reflexivity].
Qed.

(** X8. Under an absolute [root] and on a tree of well-formed entry
    names, every candidate is [root]
    followed by a non-empty chain of entry names, and the relative path
    under which the exporter reports it is that chain joined: it is never
    [.] and never starts with [..]. *)
Theorem gathered_paths_are_below_root (tree : node) (root p : string)
    (include_exts exclude_dirs : gset string) :
  starts_with_slash root = true →
  entry_names_ok tree = true →
  p ∈ gather_files tree root include_exts exclude_dirs →
  ∃ n ns, Forall (fun x => is_entry_name x = true) (n :: ns)
          ∧ p = fold_left os_path_join (n :: ns) root
          ∧ os_path_relpath p root = fold_left os_path_join ns n.
Proof.
  intros _ Hok Hp. unfold gather_files in Hp.
  destruct (walk_paths _ _ _ Hok _ _ Hp) as (n & ns & Hns & ->).
  exists n, ns. split; [exact Hns|]. split; [reflexivity|].
  apply (relpath_joined_names root (n :: ns) Hns).
Qed.

Lemma gathered_paths_are_below_root_witness :
  ∃ n ns, Forall (fun x => is_entry_name x = true) (n :: ns)
          ∧ "/proj/src/m.PY" = fold_left os_path_join (n :: ns) "/proj"
          ∧ os_path_relpath "/proj/src/m.PY" "/proj" = fold_left os_path_join ns n.
Proof.
  apply (gathered_paths_are_below_root Examples.tree_git "/proj" "/proj/src/m.PY"
           (resolve_include "py") (resolve_exclude "")).
  - reflexivity.
  - reflexivity.
  - vm_compute. do 3 right. left.
Defined.

(** ** The content loader, continued *)

Lemma load_calls_prefix
    (fs : oracle) (path : string) (max_bytes : Z) (log : list syscall) :
  ∃ n, (1 ≤ n ≤ 3)%nat
       ∧ snd (read_text_safely path max_bytes fs log)
         = (log ++ take n (load_calls path))%list.
Proof.
  destruct (ask_getsize fs log path) as [size|e] eqn:H.
  2:{ exists 1. erewrite load_getsize_raises by eauto. split; [lia | reflexivity]. }
  destruct (Z_le_gt_dec size max_bytes) as [Hle|Hgt].
  2:{ exists 1. erewrite load_too_big by eauto. split; [lia | reflexivity]. }
  destruct (ask_content fs (log ++ [Getsize path])%list path) as [content|e] eqn:Hc.
  2:{ exists 2. erewrite load_sniff_raises by eauto. split; [lia|].
      simpl. rewrite <- app_assoc. reflexivity. }
  destruct (has_null (firstn 2048 content)) eqn:Hnull.
  { exists 2. erewrite load_sniff_null by eauto. split; [lia|].
    simpl. rewrite <- app_assoc. reflexivity. }
  destruct (ask_content fs ((log ++ [Getsize path]) ++ [OpenRead path (Some 2048)])%list path)
    as [data|e] eqn:Hd.
  - exists 3. erewrite load_decodes by eauto. split; [lia|].
    simpl. rewrite <- !app_assoc. reflexivity.
  - exists 3. erewrite load_read_raises by eauto. split; [lia|].
    simpl. rewrite <- !app_assoc. reflexivity.
Qed.

(** X9. A load touches no file but its own, and that one in a fixed
    order: the size first, then at most the 2048-byte sniff, then at most
    the full read. *)
Theorem load_call_discipline
    (fs : oracle) (path : string) (max_bytes : Z) (log : list syscall) :
  ∃ n, (1 ≤ n ≤ 3)%nat
       ∧ snd (read_text_safely path max_bytes fs log)
         = (log ++ take n (load_calls path))%list.
Proof. apply load_calls_prefix. Qed.

(** X10. Exactly when a load yields text: all three calls answer, the size
    is within the limit and the sample holds no null byte. The text is then
    the UTF-8 decoding with no note, or, when that fails, the Latin-1
    decoding with the fallback note. *)
Theorem load_yields_text_iff
    (fs : oracle) (path : string) (max_bytes : Z) (log : list syscall)
    (t : text) (note : option string) :
  fst (read_text_safely path max_bytes fs log) = Returned (Some t, note) ↔
  ∃ size content data,
    ask_getsize fs log path = Returned size
    ∧ (size <= max_bytes)%Z
    ∧ ask_content fs (log ++ [Getsize path])%list path = Returned content
    ∧ has_null (firstn 2048 content) = false
    ∧ ask_content fs ((log ++ [Getsize path]) ++ [OpenRead path (Some 2048)])%list path
      = Returned data
    ∧ (t, note) = match decode_utf8 data with
                  | Some u => (u, None)
                  | None => (decode_latin1 data, Some note_latin1)
                  end.
Proof.
  split.
  - destruct (ask_getsize fs log path) as [size|e] eqn:H.
    2:{ erewrite load_getsize_raises by eauto. discriminate. }
    destruct (Z_le_gt_dec size max_bytes) as [Hle|Hgt].
    2:{ erewrite load_too_big by eauto. discriminate. }
    destruct (ask_content fs (log ++ [Getsize path])%list path) as [content|e] eqn:Hc.
    2:{ erewrite load_sniff_raises by eauto. discriminate. }
    destruct (has_null (firstn 2048 content)) eqn:Hnull.
    { erewrite load_sniff_null by eauto. discriminate. }
    destruct (ask_content fs ((log ++ [Getsize path]) ++ [OpenRead path (Some 2048)])%list path)
      as [data|e] eqn:Hd.
    2:{ erewrite load_read_raises by eauto. discriminate. }
    erewrite load_decodes by eauto. simpl. intros Hr.
    exists size, content, data. repeat split; try assumption.
    destruct (decode_utf8 data); injection Hr as <- <-; reflexivity.
  - intros (size & content & data & H & Hle & Hc & Hnull & Hd & Hr).
    erewrite load_decodes by eauto. simpl.
    destruct (decode_utf8 data); injection Hr as -> ->; reflexivity.
Qed.

(** X11. The binary verdict is read off the first 2048 bytes alone: what
    comes after them, null bytes included, plays no part. *)
Theorem sniff_sees_only_the_sample
    (fs : oracle) (path : string) (log : list syscall)
    (sample rest : list Byte.byte) :
  ask_content fs log path = Returned (sample ++ rest)%list →
  length sample = 2048 →
  looks_binary path 2048 fs log
  = (Returned (has_null sample), (log ++ [OpenRead path (Some 2048)])%list).
Proof.
  intros Hc Hlen. unfold looks_binary, try_except, bind, open_rb_read.
  rewrite Hc. unfold ret. rewrite take_app_length' by (symmetry; exact Hlen). reflexivity.
Qed.

Lemma sniff_sees_only_the_sample_witness :
  looks_binary "big.bin" 2048 Examples.fs_late_null []
  = (Returned (has_null (repeat Byte.x41 2048)),
     ([] ++ [OpenRead "big.bin" (Some 2048)])%list).
Proof.
  apply (sniff_sees_only_the_sample Examples.fs_late_null "big.bin" []
           (repeat Byte.x41 2048) [Byte.x00]).
  - reflexivity.
  - vm_compute. reflexivity.
Defined.

Lemma utf8_decode_ascii (data : list N) :
  Forall (fun b => (b <= 127)%N) data → utf8_decode_N data = Some data.
Proof.
  induction 1 as [|b data Hb _ IH]; [reflexivity|].
  cbn [utf8_decode_N]. apply N.leb_le in Hb. rewrite Hb, IH. reflexivity.
Qed.

(** X12. A file of ASCII bytes without a null byte in its sample loads as
    exactly its characters, with no note. *)
Theorem ascii_file_loads_verbatim
    (fs : oracle) (path : string) (max_bytes size : Z) (log : list syscall)
    (data : list Byte.byte) :
  ask_getsize fs log path = Returned size →
  (size <= max_bytes)%Z →
  ask_content fs (log ++ [Getsize path])%list path = Returned data →
  ask_content fs ((log ++ [Getsize path]) ++ [OpenRead path (Some 2048)])%list path
  = Returned data →
  Forall (fun b => (Byte.to_N b <= 127)%N) data →
  Byte.x00 ∉ firstn 2048 data →
  fst (read_text_safely path max_bytes fs log)
  = Returned (Some (map Byte.to_N data), None).
Proof.
  intros H Hle Hc Hd Hascii Hnull.
  assert (has_null (firstn 2048 data) = false) as Hn.
  { unfold has_null. apply not_true_is_false. intros Hex.
    apply existsb_exists in Hex as (b & Hin & Hb).
    apply Hnull. apply list_elem_of_In.
    destruct b; try discriminate Hb. exact Hin. }
  erewrite load_decodes by eauto. simpl.
  unfold decode_utf8. rewrite utf8_decode_ascii; [reflexivity|].
  apply Forall_forall. intros n Hn'.
  apply list_elem_of_In, in_map_iff in Hn' as (b & <- & Hb).
  rewrite Forall_forall in Hascii. apply Hascii. apply list_elem_of_In. exact Hb.
Qed.

Lemma ascii_file_loads_verbatim_witness :
  fst (read_text_safely "a.txt" 100 Examples.fs_ascii [])
  = Returned (Some (map Byte.to_N [Byte.x64; Byte.x65; Byte.x66; Byte.x0a]), None).
Proof.
  apply (ascii_file_loads_verbatim Examples.fs_ascii "a.txt" 100 4 []
           [Byte.x64; Byte.x65; Byte.x66; Byte.x0a]).
  - reflexivity.
  - lia.
  - reflexivity.
  - reflexivity.
  - repeat constructor; vm_compute; discriminate.
  - simpl. intros H.
    repeat (apply elem_of_cons in H as [H|H]; [discriminate|]).
    apply elem_of_nil in H. exact H.
Defined.

(** ** The wrapper, continued *)

Section WrapBounds.
Local Open Scope nat_scope.
Local Open Scope list_scope.
Variable width : nat.
Hypothesis width_pos : 1 ≤ width.

Lemma fill_line_all (chunks : list text) :
  ∀ (cur_line : list text) (cur_len : nat),
    cur_len + length (concat chunks) ≤ width →
    TextWrapper.fill_line width chunks cur_line cur_len
    = (cur_line ++ chunks, cur_len + length (concat chunks), []).
Proof.
  induction chunks as [|chunk chunks IH]; intros cur_line cur_len H.
  - simpl. rewrite app_nil_r, Nat.add_0_r. reflexivity.
  - simpl in H. rewrite length_app in H. cbn [TextWrapper.fill_line].
    destruct (Nat.leb_spec (cur_len + length chunk) width) as [_|Hbig]; [|lia].
    rewrite IH by lia. rewrite <- app_assoc. simpl. rewrite length_app.
    f_equal. f_equal. lia.
Qed.

Lemma fill_line_stuck (chunk : text) (chunks rest : list text) (len : nat) :
  TextWrapper.fill_line width (chunk :: chunks) [] 0 = ([], len, rest) →
  width < length chunk.
Proof.
  cbn [TextWrapper.fill_line]. intros Hfill.
  destruct (Nat.leb_spec (0 + length chunk) width) as [Hfit|Hbig]; [|simpl in Hbig; lia].
  destruct (fill_line_spec width width_pos chunks ([] ++ [chunk]) (0 + length chunk) Hfit)
    as (taken & rest' & len' & Hfill' & _).
  rewrite Hfill' in Hfill. discriminate.
Qed.

(** A round lays out a line that is not empty and not wider than [width]. *)
Lemma next_line_bound (chunk : text) (chunks : list text) :
  Forall (fun c => c ≠ []) (chunk :: chunks) →
  0 < length (concat (fst (TextWrapper.next_line width (chunk :: chunks)))) ≤ width.
Proof.
  intros Hne. unfold TextWrapper.next_line.
  destruct (fill_line_spec width width_pos (chunk :: chunks) [] 0 ltac:(lia))
    as (taken & rest & len & Hfill & Hsplit & Hlen & Hle).
  rewrite Hfill. simpl app. simpl in Hlen. subst len.
  assert (Hchunk : 0 < length chunk).
  { inversion Hne; subst. destruct chunk; [congruence | simpl; lia]. }
  assert (Htaken : taken ≠ [] → 0 < length (concat taken)).
  { destruct taken as [|t taken]; [congruence|]. intros _.
    injection Hsplit as <- _. simpl. rewrite length_app. lia. }
  destruct rest as [|big rest'].
  - cbn [fst]. destruct taken as [|t taken]; [discriminate|].
    specialize (Htaken ltac:(discriminate)). lia.
  - destruct (Nat.ltb_spec width (length big)) as [Hlong|Hshort].
    + unfold TextWrapper.handle_long_word.
      replace (width <? 1) with false by (symmetry; apply Nat.ltb_ge; lia).
      cbn [fst]. rewrite concat_app. simpl. rewrite app_nil_r.
      rewrite length_app, length_take. lia.
    + cbn [fst]. destruct taken as [|t taken].
      * apply fill_line_stuck in Hfill. simpl in Hsplit.
        injection Hsplit as -> _. lia.
      * specialize (Htaken ltac:(discriminate)). lia.
Qed.

Lemma wrap_chunks_loop_bound (fuel : nat) :
  ∀ chunks lines out,
    Forall (fun c => c ≠ []) chunks →
    Forall (fun l => 0 < length l ≤ width) lines →
    TextWrapper.wrap_chunks_loop width fuel chunks lines = Some out →
    Forall (fun l => 0 < length l ≤ width) out.
Proof.
  induction fuel as [|fuel IH]; intros chunks lines out Hne Hlines Hloop.
  - destruct chunks; simpl in Hloop; [|discriminate].
    injection Hloop as <-. exact Hlines.
  - destruct chunks as [|chunk chunks].
    + simpl in Hloop. injection Hloop as <-. exact Hlines.
    + rewrite wrap_chunks_loop_step in Hloop.
      destruct (next_line_spec width width_pos chunk chunks Hne)
        as (cur_line & rest & Hnext & _ & Hrest & _).
      pose proof (next_line_bound chunk chunks Hne) as Hb.
      rewrite Hnext in Hloop, Hb. cbn [fst snd] in Hloop, Hb.
      eapply IH; [exact Hrest| |exact Hloop].
      destruct cur_line; [exact Hlines|].
      apply Forall_app. split; [exact Hlines|]. repeat constructor; lia.
Qed.

Lemma wrap_lines_bound (raw : text) :
  Forall (fun l => 0 < length l ≤ width) (TextWrapper.wrap width raw).
Proof.
  unfold TextWrapper.wrap.
  destruct (wrap_opt_total width width_pos raw) as (lines & Hw & _).
  rewrite Hw. simpl.
  unfold TextWrapper.wrap_opt, TextWrapper.wrap_chunks in Hw.
  eapply wrap_chunks_loop_bound; [apply split_nonempty| |exact Hw].
  constructor.
Qed.

(** A line without a TAB that fits is left in one piece. *)
Lemma wrap_short_line (raw : text) :
  0 < length raw ≤ width → 9%N ∉ raw → TextWrapper.wrap width raw = [raw].
Proof.
  intros Hlen Htab.
  unfold TextWrapper.wrap, TextWrapper.wrap_opt, TextWrapper.wrap_chunks,
    TextWrapper.munge_whitespace.
  rewrite expandtabs_no_tab by exact Htab.
  pose proof (split_concat raw) as Hcat.
  destruct (TextWrapper.split raw) as [|chunk chunks] eqn:Hsplit.
  { simpl in Hcat. subst raw. simpl in Hlen. lia. }
  rewrite Hcat. destruct (length raw) as [|fuel] eqn:Hl; [lia|].
  rewrite wrap_chunks_loop_step. unfold TextWrapper.next_line.
  rewrite fill_line_all by (rewrite Hcat; lia).
  cbn [fst snd app]. rewrite Hcat.
  destruct fuel; reflexivity.
Qed.
End WrapBounds.

(** X13. Whatever the source line, the wrapped lines are not empty, hold at
    most 500 characters each, and put together are the line with its tabs
    expanded to eight-column stops. *)
Theorem wrapped_lines_fit (raw : text) :
  Forall (fun l => (0 < length l ≤ 500)%nat) (TextWrapper.wrap 500 raw)
  ∧ concat (TextWrapper.wrap 500 raw) = PyText.expandtabs 8 raw.
Proof.
  split.
  - apply wrap_lines_bound. lia.
  - apply wrap_concat. lia.
Qed.

(** X14. A source line without a TAB is given back exactly by its wrapped
    lines put together; if it also has at most 500 characters it is written
    as it is. *)
Theorem untabbed_line_kept (raw : text) :
  9%N ∉ raw →
  concat (TextWrapper.wrap 500 raw) = raw
  ∧ ((0 < length raw ≤ 500)%nat → TextWrapper.wrap 500 raw = [raw]).
Proof.
  intros Htab. split.
  - apply wrap_reconstructs_untabbed; [lia | exact Htab].
  - intros Hlen. apply wrap_short_line; [lia | exact Hlen | exact Htab].
Qed.

Lemma untabbed_line_kept_witness :
  concat (TextWrapper.wrap 500 [97; 32; 98]%N) = [97; 32; 98]%N
  ∧ ((0 < length [97; 32; 98]%N ≤ 500)%nat
     → TextWrapper.wrap 500 [97; 32; 98]%N = [[97; 32; 98]%N]).
Proof.
  apply (untabbed_line_kept [97; 32; 98]%N).
  apply (bool_decide_unpack _). vm_compute. exact I.
Defined.

(** ** The body of a block *)

Lemma fold_write_concat (piece : text → text) (lines : list text) (out : text) :
  fold_left (fun o raw => write o (piece raw)) lines out
  = (out ++ concat (map piece lines))%list.
Proof.
  revert out. induction lines as [|raw lines IH]; intros out; simpl.
  - rewrite app_nil_r. reflexivity.
  - rewrite IH. unfold write. rewrite <- app_assoc. reflexivity.
Qed.

Lemma splitlines_not_nil (t : text) : t ≠ [] → PyText.splitlines t ≠ [].
Proof.
  destruct t as [|c t]; [congruence|]. intros _. cbn [PyText.splitlines].
  destruct (PyText.is_linebreak c).
  - destruct t as [|d t]; [discriminate|].
    destruct ((c =? 13)%N && (d =? 10)%N); discriminate.
  - destruct (PyText.splitlines t); discriminate.
Qed.

Lemma splitlines_elem_bounded (n : nat) :
  ∀ t line c,
    (length t ≤ n)%nat → line ∈ PyText.splitlines t → c ∈ line → c ∈ t.
Proof.
  induction n as [|n IH]; intros t line c Hlen Hline Hc.
  - destruct t; [|simpl in Hlen; lia].
    simpl in Hline. apply elem_of_nil in Hline. contradiction.
  - destruct t as [|x t].
    { simpl in Hline. apply elem_of_nil in Hline. contradiction. }
    simpl in Hlen. cbn [PyText.splitlines] in Hline.
    destruct (PyText.is_linebreak x).
    + destruct t as [|d t].
      * apply list_elem_of_singleton in Hline as ->.
        apply elem_of_nil in Hc. contradiction.
      * simpl in Hlen.
        destruct ((x =? 13)%N && (d =? 10)%N);
          apply elem_of_cons in Hline as [->|Hline];
          try (apply elem_of_nil in Hc; contradiction).
        -- do 2 right. apply (IH t line c); [lia | assumption..].
        -- right. apply (IH (d :: t) line c); [simpl; lia | assumption..].
    + destruct (PyText.splitlines t) as [|l ls] eqn:Hs.
      * apply list_elem_of_singleton in Hline as ->.
        apply list_elem_of_singleton in Hc as ->. left.
      * apply elem_of_cons in Hline as [->|Hline].
        -- apply elem_of_cons in Hc as [->|Hc]; [left|].
           right. apply (IH t l c); [lia | rewrite Hs; left | exact Hc].
        -- right. apply (IH t line c); [lia | rewrite Hs; right; exact Hline | exact Hc].
Qed.

Lemma splitlines_elem (t line : text) (c : N) :
  line ∈ PyText.splitlines t → c ∈ line → c ∈ t.
Proof. apply (splitlines_elem_bounded (length t)). lia. Qed.

(** With LF as the only line boundary and the last line terminated,
    [splitlines] loses nothing but the boundaries. *)
Lemma splitlines_lf (t : text) :
  (∀ c, c ∈ t → PyText.is_linebreak c = true → c = 10%N) →
  t = [] ∨ last t = Some 10%N →
  concat (map (fun line => line ++ [10%N])%list (PyText.splitlines t)) = t.
Proof.
  induction t as [|c t IH]; intros Hlf Hend; [reflexivity|].
  assert (Hlf' : ∀ c0, c0 ∈ t → PyText.is_linebreak c0 = true → c0 = 10%N).
  { intros c0 Hc0. apply Hlf. right. exact Hc0. }
  assert (Hend' : t ≠ [] → last t = Some 10%N).
  { intros Hne. destruct Hend as [|Hend]; [discriminate|].
    destruct t as [|d t]; [congruence|]. exact Hend. }
  cbn [PyText.splitlines].
  destruct (PyText.is_linebreak c) eqn:Hc.
  - pose proof (Hlf c ltac:(left) Hc) as ->.
    assert (match t with
            | [] => [[]]
            | d :: s'' =>
                if ((10 =? 13)%N && (d =? 10)%N)
                then [] :: PyText.splitlines s''
                else [] :: PyText.splitlines t
            end = [] :: PyText.splitlines t) as ->.
    { destruct t; reflexivity. }
    simpl. f_equal. apply IH; [exact Hlf'|].
    destruct t; [left; reflexivity | right; apply Hend'; discriminate].
  - destruct t as [|d t].
    { exfalso. destruct Hend as [|Hend]; [discriminate|].
      injection Hend as ->. discriminate. }
    pose proof (splitlines_not_nil (d :: t) ltac:(discriminate)) as Hne.
    specialize (IH Hlf' (or_intror (Hend' ltac:(discriminate)))).
    destruct (PyText.splitlines (d :: t)) as [|l ls]; [contradiction|].
    simpl in *. rewrite IH. reflexivity.
Qed.

(** What is written for a source line that has no TAB and fits. *)
Lemma short_line_written (raw : text) :
  9%N ∉ raw → (length raw ≤ 500)%nat →
  ((match TextWrapper.wrap 500 raw with
    | [] => []
    | _ :: _ => PyText.join (widen nl) (TextWrapper.wrap 500 raw)
    end) ++ widen nl)%list
  = (raw ++ [10%N])%list.
Proof.
  intros Htab Hlen. destruct raw as [|c raw]; [reflexivity|].
  assert (TextWrapper.wrap 500 (c :: raw) = [c :: raw]) as ->; [|reflexivity].
  apply wrap_short_line; [lia | | exact Htab].
  simpl in *. lia.
Qed.

(** X15. The body of a block is the file's text itself when the text has
    no TAB, uses LF as its only line boundary, ends with LF (or is empty)
    and has no line longer than 500 characters. *)
Theorem body_verbatim (out t : text) :
  9%N ∉ t →
  (∀ c, c ∈ t → PyText.is_linebreak c = true → c = 10%N) →
  t = [] ∨ last t = Some 10%N →
  Forall (fun line => (length line ≤ 500)%nat) (PyText.splitlines t) →
  write_body out t = (out ++ t)%list.
Proof.
  intros Htab Hlf Hend Hfit. unfold write_body.
  rewrite (fold_write_concat
             (fun raw =>
                ((match TextWrapper.wrap 500 raw with
                  | [] => []
                  | _ :: _ => PyText.join (widen nl) (TextWrapper.wrap 500 raw)
                  end) ++ widen nl)%list)).
  f_equal. rewrite <- (splitlines_lf t Hlf Hend) at 2. f_equal.
  apply map_ext_in. intros raw Hraw. apply list_elem_of_In in Hraw.
  apply short_line_written.
  - intros H9. apply Htab. eapply splitlines_elem; eauto.
  - rewrite Forall_forall in Hfit. apply Hfit. exact Hraw.
Qed.

Lemma body_verbatim_witness :
  write_body [] Examples.plain_file = ([] ++ Examples.plain_file)%list.
Proof.
  apply (body_verbatim [] Examples.plain_file).
  - apply (bool_decide_unpack _). vm_compute. exact I.
  - intros c Hc Hbreak. unfold Examples.plain_file in Hc.
    repeat (apply elem_of_cons in Hc as [->|Hc];
            [first [reflexivity | discriminate Hbreak]|]).
    apply elem_of_nil in Hc. contradiction.
  - right. reflexivity.
  - vm_compute. repeat constructor.
Defined.

(** ** The header *)

(** X16. The table of contents has one line per candidate, in candidate
    order, numbered from the starting index on, each with the path
    relative to [root]. *)
Theorem write_toc_lines (root : string) (files : list string) :
  ∀ (out : text) (i : nat),
    write_toc out root i files
    = (out ++ concat (imap (fun k fpath =>
                              widen (fmt_04d (i + k) ++ ". "
                                     ++ os_path_relpath fpath root ++ nl))
                           files))%list.
Proof.
  induction files as [|f files IH]; intros out i.
  - simpl. rewrite app_nil_r. reflexivity.
  - cbn [write_toc]. rewrite IH. unfold write. rewrite imap_cons.
    cbn [concat]. rewrite Nat.add_0_r, <- app_assoc. do 3 f_equal.
    apply imap_ext. intros k x _. simpl. rewrite Nat.add_succ_r. reflexivity.
Qed.

(** X17. An index below 10000 is written with exactly four digits. *)
Theorem fmt_04d_width (i : nat) :
  (Z.of_nat i < 10000)%Z → String.length (fmt_04d i) = 4%nat.
Proof.
  intros Hi.
  assert (forallb (fun k => Nat.eqb (String.length (fmt_04d k)) 4)
            (seq 0 (Z.to_nat 10000)) = true)
    as Hall by (vm_compute; reflexivity).
  rewrite forallb_forall in Hall.
  apply Nat.eqb_eq. apply Hall. apply in_seq. lia.
Qed.

Lemma fmt_04d_width_witness : String.length (fmt_04d 42) = 4%nat.
Proof. apply (fmt_04d_width 42). lia. Defined.

(** ** The walk finds every accepted file *)

(** X18. Nothing acceptable is missed: a file whose name [should_include]
    accepts, reached from the root through directories none of which is
    excluded, is among the candidates, under the path made of those names. *)
Theorem gather_complete (include_exts exclude_dirs : gset string)
    (dirs : list string) (fname : string) :
  ∀ (tree : node) (root : string),
    file_at (dirs ++ [fname]) tree = true →
    Forall (fun d => d ∉ exclude_dirs) dirs →
    should_include fname include_exts = true →
    fold_left os_path_join (dirs ++ [fname]) root
    ∈ gather_files tree root include_exts exclude_dirs.
Proof. unfold gather_files. apply walk_finds_file. Qed.

Lemma gather_complete_witness :
  fold_left os_path_join (["src"; "sub"] ++ ["z.md"]) "/proj"
  ∈ gather_files Examples.tree_git "/proj" (resolve_include "") (resolve_exclude "").
Proof.
  apply (gather_complete (resolve_include "") (resolve_exclude "")
           ["src"; "sub"] "z.md" Examples.tree_git "/proj").
  - reflexivity.
  - repeat constructor; vm_compute; discriminate.
  - vm_compute. reflexivity.
Defined.

(** ** Decoding *)

Ltac bool_facts :=
  repeat match goal with
    | H : (_ && _)%bool = true |- _ => apply andb_true_iff in H as [? ?]
    | H : in_range _ _ _ = true |- _ => unfold in_range in H
    | H : (_ <=? _)%N = true |- _ => apply N.leb_le in H
    | H : (_ <=? _)%N = false |- _ => apply N.leb_gt in H
    | H : (_ =? _)%N = true |- _ => apply N.eqb_eq in H
    | H : (_ =? _)%N = false |- _ => apply N.eqb_neq in H
    end.

Lemma utf8_decode_scalar_bounded (n : nat) :
  ∀ (data : list N) (t : text),
    (length data ≤ n)%nat →
    utf8_decode_N data = Some t →
    Forall is_scalar_value t ∧ (length t ≤ length data)%nat.
Proof.
  induction n as [|n IH]; intros data t Hlen Hdec.
  - destruct data; [|simpl in Hlen; lia].
    injection Hdec as <-. split; [constructor | simpl; lia].
  - destruct data as [|b0 r0].
    { injection Hdec as <-. split; [constructor | simpl; lia]. }
    simpl in Hlen. cbn [utf8_decode_N] in Hdec.
    destruct (b0 <=? 127)%N eqn:H0.
    { destruct (utf8_decode_N r0) as [u|] eqn:Hu; [|discriminate].
      injection Hdec as <-. destruct (IH r0 u ltac:(lia) Hu) as [Hs Hl].
      bool_facts. split; [constructor; [left; lia | exact Hs] | simpl; lia]. }
    destruct (in_range 194 223 b0) eqn:H2.
    { destruct r0 as [|b1 r1]; [discriminate|].
      destruct (in_range 128 191 b1) eqn:Hb1; [|discriminate].
      destruct (utf8_decode_N r1) as [u|] eqn:Hu; [|discriminate].
      injection Hdec as <-. simpl in Hlen.
      destruct (IH r1 u ltac:(lia) Hu) as [Hs Hl].
      bool_facts. split; [constructor; [left; lia | exact Hs] | simpl; lia]. }
    destruct (in_range 224 239 b0) eqn:H3.
    { destruct r0 as [|b1 [|b2 r2]]; try discriminate.
      destruct (in_range (if (b0 =? 224)%N then 160 else 128)
                  (if (b0 =? 237)%N then 159 else 191) b1 && in_range 128 191 b2)
        eqn:Hb; [|discriminate].
      destruct (utf8_decode_N r2) as [u|] eqn:Hu; [|discriminate].
      injection Hdec as <-. simpl in Hlen.
      destruct (IH r2 u ltac:(lia) Hu) as [Hs Hl].
      split; [|simpl; lia]. constructor; [|exact Hs].
      unfold is_scalar_value.
      destruct (b0 =? 224)%N eqn:E1, (b0 =? 237)%N eqn:E2; bool_facts; lia. }
    destruct (in_range 240 244 b0) eqn:H4; [|discriminate].
    destruct r0 as [|b1 [|b2 [|b3 r3]]]; try discriminate.
    destruct (in_range (if (b0 =? 240)%N then 144 else 128)
                (if (b0 =? 244)%N then 143 else 191) b1
              && in_range 128 191 b2 && in_range 128 191 b3)
      eqn:Hb; [|discriminate].
    destruct (utf8_decode_N r3) as [u|] eqn:Hu; [|discriminate].
    injection Hdec as <-. simpl in Hlen.
    destruct (IH r3 u ltac:(lia) Hu) as [Hs Hl].
    split; [|simpl; lia]. constructor; [|exact Hs].
    unfold is_scalar_value.
    destruct (b0 =? 240)%N eqn:E1, (b0 =? 244)%N eqn:E2; bool_facts; lia.
Qed.

(** X19. Text that decoded as UTF-8 holds Unicode scalar values only (no
    surrogate, nothing above U+10FFFF) and has at most one character per
    byte of the file. *)
Theorem utf8_text_is_scalar (data : list Byte.byte) (t : text) :
  decode_utf8 data = Some t →
  Forall is_scalar_value t ∧ (length t ≤ length data)%nat.
Proof.
  unfold decode_utf8. intros H.
  destruct (utf8_decode_scalar_bounded _ _ t (le_n _) H) as [Hs Hl].
  rewrite length_map in Hl. auto.
Qed.

Lemma utf8_text_is_scalar_witness :
  Forall is_scalar_value [8364%N]
  ∧ (length [8364%N] ≤ length [Byte.xe2; Byte.x82; Byte.xac])%nat.
Proof.
  apply (utf8_text_is_scalar [Byte.xe2; Byte.x82; Byte.xac] [8364%N]).
  reflexivity.
Defined.

(** ** Whole runs *)




